(** * Safe tar extraction in [sagemaker/workflow/_repack_model.py]

    A shallow embedding of the path resolver ([_get_resolved_path]), the two
    containment checks ([_is_bad_path], [_is_bad_link]), the member filter
    ([_get_safe_members]) and the extraction entry point
    ([custom_extractall_tarfile]), together with the part of Python's
    [posixpath] module that these functions call.

    Paths are Python [str] values, modelled as [string].  The filesystem is
    the only external resource that the resolver reads: it is modelled as a
    current working directory and a finite table from canonical absolute
    paths to the node stored there.  [_joinrealpath] only ever hands such
    paths to [os.lstat], so a lookup in the table stands for that call; a
    path that holds a NUL character makes [os.lstat] raise [ValueError],
    which [_joinrealpath] does not catch, and links nested deeper than the
    interpreter's recursion limit end in [RecursionError].

    [_get_safe_members] is a generator.  Its loop is modelled with the step
    that its consumer takes at each [yield]: [_get_safe_members] itself is
    the generator run to its end by a consumer that touches nothing, and
    [custom_extractall_tarfile] hands the generator to
    [TarFile.extractall], which extracts each member before it asks for the
    next one. *)

From Stdlib Require Import String Ascii List Bool Arith Lia.
From stdpp Require Import base option gmap strings list fin_maps.

Import ListNotations.
Local Open Scope string_scope.
Local Open Scope list_scope.

(** ** Python [str] primitives used by [posixpath] *)

Module pystr.

Definition sep : ascii := "/"%char.

Definition is_sep (c : ascii) : bool := Ascii.eqb c sep.

(** [s.startswith(p)] *)
Fixpoint startswith (s p : string) {struct p} : bool :=
  match p with
  | EmptyString => true
  | String b p' =>
      match s with
      | EmptyString => false
      | String a s' => Ascii.eqb a b && startswith s' p'
      end
  end.

(** [s.endswith("/")] *)
Fixpoint endswith_sep (s : string) : bool :=
  match s with
  | EmptyString => false
  | String c EmptyString => is_sep c
  | String _ s' => endswith_sep s'
  end.

(** [s.split("/")]: never the empty list. *)
Fixpoint split_sep (s : string) : list string :=
  match s with
  | EmptyString => [EmptyString]
  | String c s' =>
      if is_sep c then EmptyString :: split_sep s'
      else match split_sep s' with
           | [] => [String c EmptyString]
           | h :: t => String c h :: t
           end
  end.

(** ["/".join(comps)] *)
Fixpoint join_sep (comps : list string) : string :=
  match comps with
  | [] => EmptyString
  | [c] => c
  | c :: cs => c +:+ String sep (join_sep cs)
  end.

(** [name, _, rest = s.partition("/")] *)
Fixpoint partition (s : string) : string * string :=
  match s with
  | EmptyString => (EmptyString, EmptyString)
  | String c s' =>
      if is_sep c then (EmptyString, s')
      else let '(n, r) := partition s' in (String c n, r)
  end.

(** The successive results of [name, _, rest = rest.partition("/")] in a
    loop [while rest: ...]: one pair [(name, rest)] per iteration. *)
Fixpoint partitions (s : string) : list (string * string) :=
  match s with
  | EmptyString => []
  | String c s' =>
      if is_sep c then (EmptyString, s') :: partitions s'
      else match partitions s' with
           | [] => [(String c EmptyString, EmptyString)]
           | (n, r) :: tl => (String c n, r) :: tl
           end
  end.

(** [(s[:i], s[i:])] for [i = s.rfind("/") + 1] *)
Fixpoint rcut (s : string) : string * string :=
  match s with
  | EmptyString => (EmptyString, EmptyString)
  | String c s' =>
      let '(h, t) := rcut s' in
      match h with
      | String _ _ => (String c h, t)
      | EmptyString =>
          if is_sep c then (String c EmptyString, t)
          else (EmptyString, String c t)
      end
  end.

(** [s == "/" * len(s)] *)
Fixpoint all_sep (s : string) : bool :=
  match s with
  | EmptyString => true
  | String c s' => is_sep c && all_sep s'
  end.

(** [s.rstrip("/")] *)
Fixpoint rstrip_sep (s : string) : string :=
  match s with
  | EmptyString => EmptyString
  | String c s' =>
      match rstrip_sep s' with
      | EmptyString => if is_sep c then EmptyString else String c EmptyString
      | r => String c r
      end
  end.

(** The NUL character and ["\0" in s] *)
Definition nul : ascii := Ascii.zero.

Fixpoint has_nul (s : string) : bool :=
  match s with
  | EmptyString => false
  | String c s' => Ascii.eqb c nul || has_nul s'
  end.

(** [s[1:]] *)
Definition tail1 (s : string) : string :=
  match s with
  | EmptyString => EmptyString
  | String _ s' => s'
  end.

Definition nonempty (s : string) : bool :=
  match s with
  | EmptyString => false
  | String _ _ => true
  end.

End pystr.

(** ** The filesystem state read by the resolver *)

Inductive node : Type :=
  | RegularFile
  | Directory
  | Symlink (target : string).

(** Besides the disk, the state holds how many more nested calls of
    [_joinrealpath] the interpreter's recursion limit allows once the first
    one is running. *)
Record filesystem : Type := Disk {
  cwd : string;                    (* os.getcwd() *)
  entries : gmap string node;      (* what os.lstat finds at a path *)
  frames : nat                     (* nested calls left before RecursionError *)
}.

(** [sys.getrecursionlimit()] of a fresh interpreter: no call of the
    resolver has more nested calls at hand. *)
Definition python_frames : nat := 1000.

(** A disk seen with that many nested calls at hand; the examples stated
    on such a disk follow a handful of links at most. *)
Definition MkFs (dir : string) (e : gmap string node) : filesystem :=
  Disk dir e python_frames.

(** ** Results of calls that may raise *)

Inductive exn : Type :=
  | OSError
  | ValueError
  | RecursionError
  | TypeError
  | TarError.

Inductive outcome (A : Type) : Type :=
  | Returns (a : A)
  | Raises (e : exn).

Arguments Returns {A} a.
Arguments Raises {A} e.

(** [os.lstat(p)]: [ValueError] ("embedded null byte") for a path that
    holds a NUL character, [OSError] for a path at which nothing is. *)
Definition lstat (fs : filesystem) (p : string) : outcome node :=
  if pystr.has_nul p then Raises ValueError
  else match entries fs !! p with
       | Some n => Returns n
       | None => Raises OSError
       end.

(** ** [posixpath] *)

Module posixpath.

Import pystr.

Definition curdir : string := ".".
Definition pardir : string := "..".

Definition isabs (s : string) : bool := startswith s "/".

(** One step of the loop of [join(a, *p)]. *)
Definition join_step (path b : string) : string :=
  if startswith b "/" then b
  else if negb (nonempty path) || endswith_sep path then path +:+ b
  else path +:+ "/" +:+ b.

Definition join (a : string) (p : list string) : string :=
  fold_left join_step p a.

Definition split (p : string) : string * string :=
  let '(head, tail) := rcut p in
  let head :=
    if nonempty head && negb (all_sep head) then rstrip_sep head else head in
  (head, tail).

Definition dirname (p : string) : string :=
  let '(head, _) := rcut p in
  if nonempty head && negb (all_sep head) then rstrip_sep head else head.

Definition is_nil {A} (l : list A) : bool :=
  match l with
  | [] => true
  | _ => false
  end.

(** The loop body of [normpath] over [comps]; [new_comps] grows at its
    end, as the Python list does. *)
Definition normpath_step (initial_slashes : nat)
    (new_comps : list string) (comp : string) : list string :=
  if String.eqb comp "" || String.eqb comp "." then new_comps
  else if negb (String.eqb comp "..")
          || (Nat.eqb initial_slashes 0 && is_nil new_comps)
          || (match last new_comps with
              | Some l => String.eqb l ".."
              | None => false
              end)
  then new_comps ++ [comp]
  else match new_comps with
       | [] => new_comps
       | _ => removelast new_comps
       end.

Definition normpath (path : string) : string :=
  if negb (nonempty path) then "." else
  let initial_slashes :=
    if startswith path "/" then
      if startswith path "//" && negb (startswith path "///") then 2 else 1
    else 0 in
  let comps := split_sep path in
  let new_comps := fold_left (normpath_step initial_slashes) comps [] in
  let path := join_sep new_comps in
  let path :=
    match initial_slashes with
    | 0 => path
    | 1 => "/" +:+ path
    | _ => "//" +:+ path
    end in
  if nonempty path then path else ".".

Definition abspath (fs : filesystem) (path : string) : string :=
  let path := if isabs path then path else join (cwd fs) [path] in
  normpath path.

(** The dictionary [seen] of [_joinrealpath]: a link path is mapped to
    [None] while it is being resolved and to its resolution afterwards. *)
Abbreviation seen_map := (gmap string (option string)).

(** The [while rest:] loop of [_joinrealpath].  [iters] lists the
    [(name, rest)] pairs of the successive iterations and [resolve_link]
    is the recursive call [_joinrealpath(path, os.readlink(newpath),
    strict, seen)]. *)
Fixpoint joinrealpath_loop
    (resolve_link : string -> string -> seen_map ->
                    outcome (string * bool * seen_map))
    (fs : filesystem) (strict : bool)
    (iters : list (string * string)) (path : string) (seen : seen_map)
    : outcome (string * bool * seen_map) :=
  match iters with
  | [] => Returns (path, true, seen)
  | (name, rest) :: iters =>
      if negb (nonempty name) || String.eqb name curdir then
        joinrealpath_loop resolve_link fs strict iters path seen
      else if String.eqb name pardir then
        let path :=
          if nonempty path then
            let '(path, name) := split path in
            if String.eqb name pardir then join path [pardir; pardir]
            else path
          else pardir in
        joinrealpath_loop resolve_link fs strict iters path seen
      else
        let newpath := join path [name] in
        match lstat fs newpath with
        | Raises OSError =>
            (* except OSError: *)
            if strict then Raises OSError
            else joinrealpath_loop resolve_link fs strict iters newpath seen
        | Raises e => Raises e
        | Returns (Symlink target) =>
            match seen !! newpath with
            | Some (Some cached) =>
                joinrealpath_loop resolve_link fs strict iters cached seen
            | Some None =>
                (* a symlink loop *)
                if strict then Raises OSError
                else Returns (join newpath [rest], false, seen)
            | None =>
                match resolve_link path target (<[newpath := None]> seen) with
                | Returns (path, ok, seen) =>
                    if negb ok then Returns (join path [rest], false, seen)
                    else joinrealpath_loop resolve_link fs strict iters path
                           (<[newpath := Some path]> seen)
                | Raises e => Raises e
                end
            end
        | Returns _ =>
            joinrealpath_loop resolve_link fs strict iters newpath seen
        end
  end.

(** [_joinrealpath(path, rest, strict, seen)]; [fuel] is the number of
    nested calls that the recursion limit still allows. *)
Fixpoint _joinrealpath (fuel : nat) (fs : filesystem) (strict : bool)
    (path rest : string) (seen : seen_map)
    : outcome (string * bool * seen_map) :=
  match fuel with
  | O => Raises RecursionError
  | S fuel =>
      let '(path, rest) :=
        if isabs rest then ("/", tail1 rest) else (path, rest) in
      joinrealpath_loop (_joinrealpath fuel fs strict) fs strict
        (partitions rest) path seen
  end.

(** The first call and the nested calls that the state allows. *)
Definition realpath_fuel (fs : filesystem) : nat :=
  S (frames fs).

Definition realpath (fs : filesystem) (strict : bool) (filename : string)
    : outcome string :=
  match _joinrealpath (realpath_fuel fs) fs strict "" filename ∅ with
  | Returns (path, _, _) => Returns (abspath fs path)
  | Raises e => Raises e
  end.

End posixpath.

(** ** Sequencing of calls that may raise *)

Definition bind {A B : Type} (m : outcome A) (k : A -> outcome B) : outcome B :=
  match m with
  | Returns a => k a
  | Raises e => Raises e
  end.

Notation "'do' x <- m ;; k" := (bind m (fun x => k))
  (at level 10, x name, m at level 99, k at level 200,
   format "'[v' 'do'  x  <-  m  ;;  '/' k ']'").
Notation "'do' ( x , y ) <- m ;; k" :=
  (bind m (fun xy => let '(x, y) := xy in k))
  (at level 10, x name, y name, m at level 99, k at level 200,
   format "'[v' 'do'  ( x ,  y )  <-  m  ;;  '/' k ']'").

(** ** [tarfile.TarInfo] *)

Inductive member_type : Type :=
  | REGTYPE | AREGTYPE | LNKTYPE | SYMTYPE | CHRTYPE | BLKTYPE
  | DIRTYPE | FIFOTYPE | CONTTYPE.

Record TarInfo : Type := MkTarInfo {
  name : string;
  type : member_type;
  linkname : string
}.

Definition issym (info : TarInfo) : bool :=
  match type info with SYMTYPE => true | _ => false end.

Definition islnk (info : TarInfo) : bool :=
  match type info with LNKTYPE => true | _ => false end.

(** ** The module-level logger *)

Record log_record : Type := MkLog {
  msg : string;
  args : list string
}.

(** The state the script runs in: the disk and what [logger] received. *)
Record world : Type := MkWorld {
  disk : filesystem;
  records : list log_record
}.

Definition logger_error (fmt : string) (a : list string) (w : world) : world :=
  {| disk := disk w; records := records w ++ [MkLog fmt a] |}.

(** ** [_repack_model.py] *)

Import posixpath.

Definition _get_resolved_path (fs : filesystem) (path : string) : outcome string :=
  do p <- realpath fs false (abspath fs path);;
  Returns (normpath p).

Definition _is_bad_path (fs : filesystem) (path base : string) : outcome bool :=
  do p <- _get_resolved_path fs (join base [path]);;
  Returns (negb (pystr.startswith p base)).

Definition _is_bad_link (fs : filesystem) (info : TarInfo) (base : string)
    : outcome bool :=
  do tip <- _get_resolved_path fs (join base [dirname (name info)]);;
  _is_bad_path fs (linkname info) tip.

(** [a and b] where only [b] may raise. *)
Definition and_then (a : bool) (b : outcome bool) : outcome bool :=
  if a then b else Returns false.

(** The [for file_info in members:] loop of [_get_safe_members].  At
    [yield file_info] the generator hands the member to its consumer and
    is resumed when the consumer asks for the next one: [consume] is what
    the consumer does in between.  The members yielded are collected in
    order. *)
Fixpoint safe_members_loop (consume : TarInfo -> world -> outcome world)
    (base : string) (members : list TarInfo) (w : world)
    : outcome (list TarInfo * world) :=
  match members with
  | [] => Returns ([], w)
  | file_info :: members =>
      do bad <- _is_bad_path (disk w) (name file_info) base;;
      if bad then
        safe_members_loop consume base members
          (logger_error "%s is blocked (illegal path)" [name file_info] w)
      else
        do bad <- and_then (issym file_info) (_is_bad_link (disk w) file_info base);;
        if bad then
          safe_members_loop consume base members
            (logger_error "%s is blocked: Symlink to %s"
               [name file_info; linkname file_info] w)
        else
          do bad <- and_then (islnk file_info) (_is_bad_link (disk w) file_info base);;
          if bad then
            safe_members_loop consume base members
              (logger_error "%s is blocked: Hard link to %s"
                 [name file_info; linkname file_info] w)
          else
            do w <- consume file_info w;;
            do (yielded, w) <- safe_members_loop consume base members w;;
            Returns (file_info :: yielded, w)
  end.

(** The generator in the hands of a consumer: its body starts at the first
    request, with [base], before anything is consumed. *)
Definition consume_safe_members (consume : TarInfo -> world -> outcome world)
    (members : list TarInfo) (w : world) : outcome (list TarInfo * world) :=
  do base <- _get_resolved_path (disk w) ".";;
  safe_members_loop consume base members w.

(** A consumer that only collects what it is given, as [list(...)] does. *)
Definition collect (file_info : TarInfo) (w : world) : outcome world :=
  Returns w.

(** [_get_safe_members(members)], run to its end. *)
Definition _get_safe_members (members : list TarInfo) (w : world)
    : outcome (list TarInfo * world) :=
  consume_safe_members collect members w.

(** What the interpreter provides: [hasattr(tarfile, "data_filter")]. *)
Record interpreter : Type := MkInterp {
  tarfile_has_data_filter : bool
}.

(** The two things [tarfile] does for the entry point: [TarFile.extract]
    of one member into a directory, which [extractall] calls on each member
    it is given, and [extractall] with the library's own "data" filter over
    the archive.  Both act on the disk and may raise. *)
Record tarfile_library : Type := MkLib {
  extract_member : string -> TarInfo -> filesystem -> outcome filesystem;
  extractall_data : string -> list TarInfo -> filesystem -> outcome filesystem
}.

(** The step of [extractall(path=extract_path, members=...)] on a member
    it receives: it extracts the member before it asks for the next. *)
Definition extracting (lib : tarfile_library) (extract_path : string)
    (file_info : TarInfo) (w : world) : outcome world :=
  do fs <- extract_member lib extract_path file_info (disk w);;
  Returns (MkWorld fs (records w)).

(** The call [tar.extractall(path=..., members=..., filter=...)] made by
    the entry point; an argument left out is [None].  [call_members] lists
    the members that reached [extractall] through [members], in order. *)
Record extractall_call : Type := Extractall {
  call_path : string;
  call_members : option (list TarInfo);
  call_filter : option string
}.

(** A [tarfile.TarFile] is iterated as the list of its members. *)
Definition custom_extractall_tarfile (lib : tarfile_library)
    (py : interpreter) (tar : list TarInfo) (extract_path : string)
    (w : world) : outcome (extractall_call * world) :=
  if tarfile_has_data_filter py then
    do fs <- extractall_data lib extract_path tar (disk w);;
    Returns (Extractall extract_path None (Some "data"),
             MkWorld fs (records w))
  else
    do (handed, w) <- consume_safe_members (extracting lib extract_path) tar w;;
    Returns (Extractall extract_path (Some handed) None, w).

(** ** Classification of a member

    The four ways out of the [if]/[elif] chain in the loop body of
    [_get_safe_members], in the order the chain tests them. *)

Inductive classification : Type :=
  | Safe
  | BlockedPath
  | BlockedSymlink
  | BlockedHardlink.

Definition classify (fs : filesystem) (base : string) (file_info : TarInfo)
    : outcome classification :=
  do bad <- _is_bad_path fs (name file_info) base;;
  if bad then Returns BlockedPath
  else
    do bad <- and_then (issym file_info) (_is_bad_link fs file_info base);;
    if bad then Returns BlockedSymlink
    else
      do bad <- and_then (islnk file_info) (_is_bad_link fs file_info base);;
      if bad then Returns BlockedHardlink
      else Returns Safe.

(** The record that the branch taken hands to [logger.error]. *)
Definition diagnostic (file_info : TarInfo) (c : classification)
    : list log_record :=
  match c with
  | Safe => []
  | BlockedPath =>
      [MkLog "%s is blocked (illegal path)" [name file_info]]
  | BlockedSymlink =>
      [MkLog "%s is blocked: Symlink to %s"
         [name file_info; linkname file_info]]
  | BlockedHardlink =>
      [MkLog "%s is blocked: Hard link to %s"
         [name file_info; linkname file_info]]
  end.

(** Values of the calls above, read off their outcomes; the defaults stand
    in where the call raises. *)
Definition resolved (fs : filesystem) (path : string) : string :=
  match _get_resolved_path fs path with Returns p => p | _ => "" end.

Definition verdict (fs : filesystem) (base : string) (file_info : TarInfo)
    : classification :=
  match classify fs base file_info with Returns c => c | _ => BlockedPath end.

Definition is_safe (c : classification) : bool :=
  match c with Safe => true | _ => false end.

(** ** Containment and extraction, as the specification words them *)

(** [p] is equal to [base] or a descendant of it: past [base], the next
    character of [p] is a separator. *)
Definition is_within (base p : string) : bool :=
  String.eqb p base
  || pystr.startswith p
       (if pystr.endswith_sep base then base else base +:+ "/").

(** Where [TarFile.extractall(path=extract_path)] writes a member: at its
    name joined to the extraction directory. *)
Definition extract_target (extract_path : string) (info : TarInfo) : string :=
  posixpath.join extract_path [name info].

(** A disk without entries, seen from the directory [dir]. *)
Definition empty_disk (dir : string) : filesystem := MkFs dir ∅.

Definition regular (n : string) : TarInfo := MkTarInfo n REGTYPE "".

(** ** Lexical paths *)

(** A path component as [normpath] leaves it in an absolute path: not
    empty, without a separator, and neither [.] nor [..]. *)
Fixpoint no_sep (s : string) : bool :=
  match s with
  | EmptyString => true
  | String c s' => negb (pystr.is_sep c) && no_sep s'
  end.

Definition clean (c : string) : bool :=
  pystr.nonempty c && no_sep c
  && negb (String.eqb c ".") && negb (String.eqb c "..").

(** The components of a path, separators and empty components dropped. *)
Definition components (p : string) : list string :=
  List.filter pystr.nonempty (pystr.split_sep p).

(** The paths that [_joinrealpath] hands to [lstat] while it walks the
    components [names] from [path] and meets no link. *)
Fixpoint trail (path : string) (names : list string) : list string :=
  match names with
  | [] => []
  | n :: ns => posixpath.join path [n] :: trail (posixpath.join path [n]) ns
  end.

(** [os.lstat(p)] answers, and not with a link: it finds a file or a
    directory at [p], or nothing ([OSError]).  In particular [p] holds no
    NUL character. *)
Definition not_link (fs : filesystem) (p : string) : Prop :=
  match lstat fs p with
  | Returns (Symlink _) => False
  | Returns _ | Raises OSError => True
  | Raises _ => False
  end.

(** [//x] names the same path as [/x] once resolved. *)
Definition single_root (p : string) : string :=
  if pystr.startswith p "//" then pystr.tail1 p else p.

(** [/c1/c2/.../cn], each component led by a separator. *)
Fixpoint slashed (comps : list string) : string :=
  match comps with
  | [] => EmptyString
  | c :: cs => "/" +:+ c +:+ slashed cs
  end.

(** ** Measuring the recursion of [_joinrealpath] *)

(** The links of the disk, and those that [seen] does not record yet. *)
Definition is_link (n : node) : bool :=
  match n with
  | Symlink _ => true
  | _ => false
  end.

Definition links (fs : filesystem) : gmap string node :=
  filter (fun kv => is_link kv.2 = true) (entries fs).

Definition unseen (fs : filesystem) (seen : posixpath.seen_map) : nat :=
  size (dom (links fs) ∖ dom seen).

(** A string without NUL character, and a [seen] that holds only such
    paths. *)
Definition no_nul (s : string) : bool := negb (pystr.has_nul s).

Definition seen_no_nul (seen : posixpath.seen_map) : Prop :=
  forall k p, seen !! k = Some (Some p) -> no_nul p = true.

(** A disk whose links all point to targets without NUL character. *)
Definition targets_no_nul (fs : filesystem) : Prop :=
  forall p t, entries fs !! p = Some (Symlink t) -> no_nul t = true.

(** A call that returns, with a path and a [seen] free of NUL characters
    and a [seen] that lost no key. *)
Definition returns_extending (seen : posixpath.seen_map)
    (r : outcome (string * bool * posixpath.seen_map)) : Prop :=
  exists p ok seen',
    r = Returns (p, ok, seen') /\ dom seen ⊆ dom seen' /\
    no_nul p = true /\ seen_no_nul seen'.

(** ** Further notions used to describe the checks *)

(** [p] is the text of [base] followed by more text that does not start at
    a separator: a sibling of [base] whose name extends the name of
    [base]. *)
Definition extends_name (base p : string) : Prop :=
  pystr.endswith_sep base = false /\
  exists s, p = base +:+ s /\ pystr.nonempty s = true /\
            pystr.startswith s "/" = false.

(** What the walk of [realpath], which is not strict, makes of an answer
    of [os.lstat]: a link and its target, no link, or an error that is not
    [OSError]. *)
Definition link_view (o : outcome node) : outcome (option string) :=
  match o with
  | Returns (Symlink t) => Returns (Some t)
  | Returns _ | Raises OSError => Returns None
  | Raises e => Raises e
  end.

(** Two disks seen from the same directory, by an interpreter with the
    same recursion depth left, that hold the same links. *)
Definition same_links (fs fs' : filesystem) : Prop :=
  cwd fs = cwd fs' /\ frames fs = frames fs' /\
  forall p t,
    lstat fs p = Returns (Symlink t) <-> lstat fs' p = Returns (Symlink t).

(** A library whose extraction of a member that is not a link leaves the
    links of the disk, the working directory and the recursion depth as
    they are. *)
Definition keeps_links (lib : tarfile_library) : Prop :=
  forall path m fs fs',
    issym m = false -> islnk m = false ->
    extract_member lib path m fs = Returns fs' -> same_links fs fs'.

(** The members of an archive taken in turn, each classified on the disk
    that the extraction of the members before it left: a member that is not
    Safe adds its record to the log, a Safe one is extracted. *)
Inductive consumed (lib : tarfile_library) (path base : string)
    : list TarInfo -> world -> list TarInfo -> world -> Prop :=
  | consumed_nil w :
      consumed lib path base [] w [] w
  | consumed_blocked m ms w c out w' :
      classify (disk w) base m = Returns c -> c <> Safe ->
      consumed lib path base ms
        (MkWorld (disk w) (records w ++ diagnostic m c)) out w' ->
      consumed lib path base (m :: ms) w out w'
  | consumed_safe m ms w fs1 out w' :
      classify (disk w) base m = Returns Safe ->
      extract_member lib path m (disk w) = Returns fs1 ->
      consumed lib path base ms (MkWorld fs1 (records w)) out w' ->
      consumed lib path base (m :: ms) w (m :: out) w'.

(** The test of the filter written out: the resolved name begins with the
    base and, for a link, the target resolved from the link's directory
    begins with that directory. *)
Definition name_accepted (fs : filesystem) (base : string) (m : TarInfo) : bool :=
  pystr.startswith (resolved fs (posixpath.join base [name m])) base.

Definition link_accepted (fs : filesystem) (base : string) (m : TarInfo) : bool :=
  let tip := resolved fs (posixpath.join base [posixpath.dirname (name m)]) in
  pystr.startswith (resolved fs (posixpath.join tip [linkname m])) tip.

Definition accepted (fs : filesystem) (base : string) (m : TarInfo) : bool :=
  name_accepted fs base m
  && (negb (issym m || islnk m) || link_accepted fs base m).

(** The classification as the tests decide it, one after the other: the
    name first, then the link as a symbolic link, then as a hard link. *)
Definition decision (fs : filesystem) (base : string) (m : TarInfo)
    : classification :=
  if negb (name_accepted fs base m) then BlockedPath
  else if issym m && negb (link_accepted fs base m) then BlockedSymlink
  else if islnk m && negb (link_accepted fs base m) then BlockedHardlink
  else Safe.

(** A library for the examples, without extraction filters: extraction
    puts the member's node at its name joined to the extraction directory
    and normalised, and [extractall] knows no argument [filter].  It stands
    in for [tarfile] only where an example needs a disk to change. *)
Definition node_of (m : TarInfo) : node :=
  match type m with
  | SYMTYPE => Symlink (linkname m)
  | DIRTYPE => Directory
  | _ => RegularFile
  end.

Definition writing_library : tarfile_library :=
  MkLib
    (fun path m fs =>
       Returns (Disk (cwd fs)
                  (<[posixpath.normpath (posixpath.join path [name m])
                     := node_of m]> (entries fs))
                  (frames fs)))
    (fun path tar fs => Raises TypeError).

(** ** [repack]: where the model archive is read from *)

Definition data_directory : string := "/opt/ml/input/data/training".

(** [s.split("/")[-1]] *)
Definition last_component (s : string) : string :=
  List.last (pystr.split_sep s) "".

(** [model_path = os.path.join(data_directory, model_archive.split("/")[-1])] *)
Definition model_path (model_archive : string) : string :=
  posixpath.join data_directory [last_component model_archive].

(** * Properties *)

(** ** The functions on sample paths

    The values are those of CPython's [posixpath]. *)

Example split_sep_sample : pystr.split_sep "a//b/" = ["a"; ""; "b"; ""].
Proof. reflexivity. Qed.

Example join_samples :
  map (fun '(a, p) => posixpath.join a p)
    [("/out", ["../b.txt"]); ("/out/", ["b"]); ("", ["b"]);
     ("/out", ["/etc"]); ("/a", [".."; ".."])]
  = ["/out/../b.txt"; "/out/b"; "b"; "/etc"; "/a/../.."].
Proof. reflexivity. Qed.

Example split_samples :
  map posixpath.split ["/a/b/c"; "/a//"; "//"; "abc"]
  = [("/a/b", "c"); ("/a", ""); ("//", ""); ("", "abc")].
Proof. reflexivity. Qed.

Example dirname_samples :
  map posixpath.dirname ["sub/c.txt"; "a"; "/a"; "a/b/"] = ["sub"; ""; "/"; "a/b"].
Proof. reflexivity. Qed.

Example normpath_samples :
  map posixpath.normpath
    [""; "a/../.."; "/../a"; "//a/./b/"; "///a"; "/a/b/../../.."; "a/b/../c";
     "."; "/"; "//"; "../a/.."]
  = ["."; ".."; "/a"; "//a/b"; "/a"; "/"; "a/c"; "."; "/"; "//"; ".."].
Proof. reflexivity. Qed.

(** A disk with a link to a directory, a relative link, a link through
    links and a link onto itself. *)
Example resolved_samples :
  let fs :=
    MkFs "/out"
      (<["/out/l" := Symlink "/data"]>
         (<["/data/a" := Symlink "../etc/./x"]>
            (<["/loop" := Symlink "loop/y"]>
               (<["/out/r" := Symlink "l/a/b"]> ∅)))) in
  map (_get_resolved_path fs)
    ["l/new/f.txt"; "l/a/b"; "/loop/z"; "r/../q"; "r/q"; "l/../../x";
     "l/a/../../z"; "//x"; "../.."]
  = map Returns
      ["/data/new/f.txt"; "/etc/x/b"; "/loop/y/z"; "/out/q"; "/etc/x/b/q";
       "/x"; "/out/z"; "/x"; "/"].
Proof. vm_compute. reflexivity. Qed.

(** ** Strings cut at separators *)

Section string_facts.

Import pystr.

Lemma append_nil_l (t : string) : "" +:+ t = t.
Proof. reflexivity. Qed.

Lemma append_cons (c : ascii) (s t : string) :
  String c s +:+ t = String c (s +:+ t).
Proof. reflexivity. Qed.

Lemma append_nil_r (s : string) : s +:+ "" = s.
Proof.
  induction s as [|c s IH]; [reflexivity|]. by rewrite append_cons, IH.
Qed.

Lemma append_assoc (a b c : string) : (a +:+ b) +:+ c = a +:+ (b +:+ c).
Proof.
  induction a as [|x a IH]; [reflexivity|]. by rewrite !append_cons, IH.
Qed.

Lemma clean_nonempty (c : string) : clean c = true -> nonempty c = true.
Proof. unfold clean. intros H. by repeat apply andb_prop in H as [H _]. Qed.

Lemma clean_no_sep (c : string) : clean c = true -> no_sep c = true.
Proof.
  unfold clean. intros H.
  apply andb_prop in H as [H _]. apply andb_prop in H as [H _].
  by apply andb_prop in H as [_ H].
Qed.

Lemma clean_not_dot (c : string) :
  clean c = true ->
  negb (nonempty c) || String.eqb c "." = false /\ String.eqb c ".." = false.
Proof.
  unfold clean. intros H.
  apply andb_prop in H as [H Hdd]. apply andb_prop in H as [H Hd].
  apply andb_prop in H as [Hn _].
  rewrite Hn. apply negb_true_iff in Hd, Hdd. by rewrite Hd, Hdd.
Qed.

Lemma no_sep_startswith (c : string) :
  no_sep c = true -> startswith c "/" = false.
Proof.
  destruct c as [|a c]; [reflexivity|]. cbn.
  intros [Ha _]%andb_prop. apply negb_true_iff in Ha.
  unfold is_sep, sep in Ha. by rewrite Ha.
Qed.

Lemma endswith_sep_app (p c : string) :
  nonempty c = true -> no_sep c = true -> endswith_sep (p +:+ c) = false.
Proof.
  intros Hn Hs. induction p as [|a p IH].
  - rewrite append_nil_l. clear Hn.
    induction c as [|a c IH]; [reflexivity|].
    cbn in Hs. apply andb_prop in Hs as [Ha Hs].
    apply negb_true_iff in Ha. cbn. destruct c; [exact Ha | by apply IH].
  - rewrite append_cons. cbn. destruct (p +:+ c) eqn:E; [|exact IH].
    destruct p; [|discriminate]. rewrite append_nil_l in E. subst c.
    discriminate.
Qed.

Lemma nonempty_app_r (p c : string) :
  nonempty c = true -> nonempty (p +:+ c) = true.
Proof. intros H. destruct p; [exact H | reflexivity]. Qed.

(** [s.split("/")] and [s.partition("/")] on a string put together from
    components. *)
Lemma split_sep_component (c r : string) :
  no_sep c = true ->
  split_sep (c +:+ String sep r) = c :: split_sep r.
Proof.
  intros Hs. induction c as [|a c IH]; [reflexivity|].
  cbn in Hs. apply andb_prop in Hs as [Ha Hs]. apply negb_true_iff in Ha.
  rewrite append_cons. cbn. rewrite Ha, IH by exact Hs. reflexivity.
Qed.

Lemma split_sep_single (c : string) :
  no_sep c = true -> split_sep c = [c].
Proof.
  intros Hs. induction c as [|a c IH]; [reflexivity|].
  cbn in Hs. apply andb_prop in Hs as [Ha Hs]. apply negb_true_iff in Ha.
  cbn. rewrite Ha, IH by exact Hs. reflexivity.
Qed.

Lemma partitions_component (c r : string) :
  no_sep c = true ->
  partitions (c +:+ String sep r) = (c, r) :: partitions r.
Proof.
  intros Hs. induction c as [|a c IH]; [reflexivity|].
  cbn in Hs. apply andb_prop in Hs as [Ha Hs]. apply negb_true_iff in Ha.
  rewrite append_cons. cbn. rewrite Ha, IH by exact Hs. reflexivity.
Qed.

Lemma partitions_single (c : string) :
  nonempty c = true -> no_sep c = true -> partitions c = [(c, "")].
Proof.
  intros Hn Hs. induction c as [|a c IH]; [discriminate|].
  cbn in Hs. apply andb_prop in Hs as [Ha Hs]. apply negb_true_iff in Ha.
  cbn. rewrite Ha. destruct c as [|b c]; [reflexivity|].
  rewrite IH by done. reflexivity.
Qed.

(** The loop [while rest: name, _, rest = rest.partition("/")] and the
    list of its iterations. *)
Lemma partitions_unfold (s : string) :
  partitions s =
  if nonempty s then
    let '(n, r) := partition s in (n, r) :: partitions r
  else [].
Proof.
  induction s as [|c s IH]; [reflexivity|].
  cbn. destruct (is_sep c); [reflexivity|].
  rewrite IH. destruct s as [|d s]; [reflexivity|].
  cbn [nonempty]. destruct (partition (String d s)) as [n r]. reflexivity.
Qed.

Lemma join_sep_cons (c : string) (cs : list string) :
  join_sep (c :: cs) = c +:+ slashed cs.
Proof.
  revert c. induction cs as [|d ds IH]; intros c.
  - cbn. by rewrite append_nil_r.
  - change (join_sep (c :: d :: ds))
      with (c +:+ String sep (join_sep (d :: ds))).
    rewrite IH. reflexivity.
Qed.

Lemma split_sep_join_sep (c : string) (cs : list string) :
  Forall (fun x => no_sep x = true) (c :: cs) ->
  split_sep (join_sep (c :: cs)) = c :: cs.
Proof.
  revert c. induction cs as [|d ds IH]; intros c Hall.
  - apply split_sep_single. by inversion Hall.
  - change (join_sep (c :: d :: ds))
      with (c +:+ String sep (join_sep (d :: ds))).
    inversion Hall; subst.
    rewrite split_sep_component by done. by rewrite IH.
Qed.

Lemma partitions_join_sep (cs : list string) :
  Forall (fun x => clean x = true) cs ->
  map fst (partitions (join_sep cs)) = cs.
Proof.
  induction cs as [|c cs IH]; intros Hall; [reflexivity|].
  inversion Hall as [|? ? Hc Hcs]; subst.
  destruct cs as [|d ds].
  - cbn [join_sep].
    rewrite partitions_single by auto using clean_nonempty, clean_no_sep.
    reflexivity.
  - change (join_sep (c :: d :: ds))
      with (c +:+ String sep (join_sep (d :: ds))).
    rewrite partitions_component by auto using clean_no_sep.
    cbn [map fst]. by rewrite IH.
Qed.

End string_facts.

(** ** Lexical normalisation *)

Section normpath_facts.

Import pystr posixpath.

Lemma eqb_empty (c : string) : String.eqb c "" = negb (nonempty c).
Proof. destruct c; reflexivity. Qed.

Lemma Forall_removelast {A : Type} (P : A -> Prop) (l : list A) :
  Forall P l -> Forall P (removelast l).
Proof.
  induction 1 as [|x l Hx Hl IH]; cbn; [constructor|].
  destruct l; [constructor | by constructor].
Qed.

Lemma normpath_step_append (k : nat) (acc : list string) (c : string) :
  clean c = true -> normpath_step k acc c = acc ++ [c].
Proof.
  intros Hc. unfold normpath_step.
  destruct (clean_not_dot c Hc) as [Hd Hdd].
  rewrite eqb_empty, Hd, Hdd. reflexivity.
Qed.

Lemma normpath_step_clean (k : nat) (acc : list string) (c : string) :
  k <> 0 -> no_sep c = true ->
  Forall (fun x => clean x = true) acc ->
  Forall (fun x => clean x = true) (normpath_step k acc c).
Proof.
  intros Hk Hs Hacc. unfold normpath_step.
  destruct (String.eqb c "" || String.eqb c ".") eqn:Hd; [exact Hacc|].
  apply orb_false_elim in Hd as [He Hd].
  destruct (String.eqb c "..") eqn:Hdd; cbn [negb orb].
  - replace (Nat.eqb k 0) with false by (symmetry; by apply Nat.eqb_neq).
    cbn [andb orb].
    destruct (last acc) as [l|] eqn:Hl.
    + apply last_Some in Hl as [acc' ->].
      apply Forall_app in Hacc as [Hacc' Hlast].
      inversion Hlast as [|? ? Hcl _]; subst.
      destruct (clean_not_dot l Hcl) as [_ ->].
      destruct (acc' ++ [l]) eqn:E; [constructor|]. rewrite <- E.
      apply Forall_removelast, Forall_app. auto.
    + destruct acc; [constructor | by apply Forall_removelast].
  - apply Forall_app. split; [exact Hacc|]. constructor; [|constructor].
    unfold clean. rewrite eqb_empty in He. apply negb_false_iff in He.
    by rewrite He, Hs, Hd, Hdd.
Qed.

Lemma fold_normpath_step_clean (k : nat) (comps acc : list string) :
  k <> 0 ->
  Forall (fun x => no_sep x = true) comps ->
  Forall (fun x => clean x = true) acc ->
  Forall (fun x => clean x = true) (fold_left (normpath_step k) comps acc).
Proof.
  intros Hk Hcomps. revert acc.
  induction Hcomps as [|c comps Hc _ IH]; intros acc Hacc; [exact Hacc|].
  cbn. apply IH. by apply normpath_step_clean.
Qed.

Lemma fold_normpath_step_append (k : nat) (comps acc : list string) :
  Forall (fun x => clean x = true) comps ->
  fold_left (normpath_step k) comps acc = acc ++ comps.
Proof.
  intros Hcomps. revert acc.
  induction Hcomps as [|c comps Hc _ IH]; intros acc.
  - by rewrite app_nil_r.
  - cbn. rewrite normpath_step_append by done.
    rewrite IH, <- app_assoc. reflexivity.
Qed.

Lemma split_sep_no_sep (s : string) :
  Forall (fun x => no_sep x = true) (split_sep s).
Proof.
  induction s as [|c s IH]; cbn; [by repeat constructor|].
  destruct (is_sep c) eqn:Hc; [by constructor|].
  destruct (split_sep s) as [|h t].
  - repeat constructor. cbn. by rewrite Hc.
  - inversion IH as [|? ? Hh Ht]; subst.
    constructor; [|exact Ht]. cbn. by rewrite Hc, Hh.
Qed.

Lemma join_sep_not_absolute (comps : list string) :
  Forall (fun x => clean x = true) comps ->
  startswith (join_sep comps) "/" = false.
Proof.
  intros [|c cs Hc _]; [reflexivity|].
  rewrite join_sep_cons.
  pose proof (clean_nonempty c Hc) as Hn.
  pose proof (clean_no_sep c Hc) as Hs.
  destruct c as [|a c]; [discriminate|].
  rewrite append_cons. cbn in Hs |- *.
  apply andb_prop in Hs as [Ha _]. apply negb_true_iff in Ha.
  unfold is_sep, sep in Ha. by rewrite Ha.
Qed.

(** Splitting what [normpath] joined gives the components back. *)
Lemma fold_normpath_split_join (k : nat) (comps : list string) :
  Forall (fun x => clean x = true) comps ->
  fold_left (normpath_step k) (split_sep (join_sep comps)) [] = comps.
Proof.
  intros Hall. destruct comps as [|c cs]; [reflexivity|].
  rewrite split_sep_join_sep.
  - by rewrite fold_normpath_step_append.
  - eapply Forall_impl; [exact Hall|]. apply clean_no_sep.
Qed.

Lemma components_join_sep (comps : list string) :
  Forall (fun x => clean x = true) comps ->
  List.filter nonempty (split_sep (join_sep comps)) = comps.
Proof.
  intros Hall. destruct comps as [|c cs]; [reflexivity|].
  rewrite split_sep_join_sep.
  - induction Hall as [|x l Hx _ IH]; [reflexivity|].
    cbn. by rewrite (clean_nonempty x Hx), IH.
  - eapply Forall_impl; [exact Hall|]. apply clean_no_sep.
Qed.

(** [normpath] of an absolute path: one or two separators, then clean
    components. *)
Lemma normpath_absolute (q : string) :
  isabs q = true ->
  exists comps,
    Forall (fun x => clean x = true) comps /\
    (normpath q = "/" +:+ join_sep comps \/
     normpath q = "//" +:+ join_sep comps).
Proof.
  intros Habs. unfold isabs in Habs. unfold normpath. rewrite Habs.
  destruct q as [|a q]; [discriminate|]. cbn [nonempty negb].
  destruct (startswith (String a q) "//" && negb (startswith (String a q) "///")).
  - exists (fold_left (normpath_step 2) (split_sep (String a q)) []).
    split.
    + apply fold_normpath_step_clean; [lia | apply split_sep_no_sep | constructor].
    + right. reflexivity.
  - exists (fold_left (normpath_step 1) (split_sep (String a q)) []).
    split.
    + apply fold_normpath_step_clean; [lia | apply split_sep_no_sep | constructor].
    + left. reflexivity.
Qed.

(** [normpath] leaves [/c1/.../cn] alone. *)
Lemma normpath_clean (comps : list string) :
  Forall (fun x => clean x = true) comps ->
  normpath ("/" +:+ join_sep comps) = "/" +:+ join_sep comps.
Proof.
  intros Hall. unfold normpath.
  change ("/" +:+ join_sep comps) with (String sep (join_sep comps)).
  assert (startswith (String sep (join_sep comps)) "/" = true) as ->
    by reflexivity.
  assert (startswith (String sep (join_sep comps)) "//" = false) as ->
    by (cbn -[join_sep]; fold (startswith (join_sep comps) "/");
        by apply join_sep_not_absolute).
  cbn -[join_sep]. rewrite fold_normpath_split_join by done. reflexivity.
Qed.

Lemma components_single_root (comps : list string) :
  Forall (fun x => clean x = true) comps ->
  components ("/" +:+ join_sep comps) = comps.
Proof.
  intros Hall. unfold components.
  change ("/" +:+ join_sep comps) with (String sep (join_sep comps)).
  cbn. by apply components_join_sep.
Qed.

Lemma components_double_root (comps : list string) :
  Forall (fun x => clean x = true) comps ->
  components ("//" +:+ join_sep comps) = comps.
Proof.
  intros Hall. unfold components.
  change ("//" +:+ join_sep comps)
    with (String sep (String sep (join_sep comps))).
  cbn. by apply components_join_sep.
Qed.

End normpath_facts.

(** ** Resolving a path that meets no link *)

Section resolve_without_links.

Import pystr posixpath.

Variable fs : filesystem.

Lemma joinrealpath_loop_no_links
    (resolve_link : string -> string -> seen_map ->
                    outcome (string * bool * seen_map))
    (iters : list (string * string)) :
  forall path seen,
    Forall (fun x => clean x = true) (map fst iters) ->
    Forall (not_link fs) (trail path (map fst iters)) ->
    joinrealpath_loop resolve_link fs false iters path seen =
    Returns (fold_left join_step (map fst iters) path, true, seen).
Proof.
  induction iters as [|[nm rest] iters IH]; intros path seen Hcl Htr;
    [reflexivity|].
  cbn [map fst] in Hcl, Htr |- *.
  inversion Hcl as [|? ? Hc Hcl']; subst.
  cbn [trail] in Htr. inversion Htr as [|? ? Hn Htr']; subst.
  cbn [joinrealpath_loop fold_left].
  destruct (clean_not_dot nm Hc) as [Hd Hdd].
  unfold curdir, pardir. rewrite Hd, Hdd.
  change (join path [nm]) with (join_step path nm) in *.
  unfold not_link in Hn.
  destruct (lstat fs (join_step path nm)) as [[| |t]|[]] eqn:Hl;
    try done; by apply IH.
Qed.

Lemma join_step_component (p c : string) :
  clean c = true -> nonempty p = true -> endswith_sep p = false ->
  join_step p c = p +:+ "/" +:+ c.
Proof.
  intros Hc Hn He. unfold join_step.
  rewrite no_sep_startswith by (by apply clean_no_sep).
  by rewrite Hn, He.
Qed.

Lemma fold_join_step_slashed (comps : list string) :
  forall p,
    Forall (fun x => clean x = true) comps ->
    nonempty p = true -> endswith_sep p = false ->
    fold_left join_step comps p = p +:+ slashed comps.
Proof.
  induction comps as [|c cs IH]; intros p Hall Hn He.
  - cbn. by rewrite append_nil_r.
  - inversion Hall as [|? ? Hc Hcs]; subst.
    cbn [fold_left slashed]. rewrite join_step_component by done.
    rewrite IH; [by rewrite !append_assoc|exact Hcs| |].
    + apply nonempty_app_r. reflexivity.
    + rewrite <- append_assoc.
      apply endswith_sep_app; auto using clean_nonempty, clean_no_sep.
Qed.

Lemma fold_join_step_root (comps : list string) :
  Forall (fun x => clean x = true) comps ->
  fold_left join_step comps "/" = "/" +:+ join_sep comps.
Proof.
  intros Hall. destruct comps as [|c cs]; [reflexivity|].
  inversion Hall as [|? ? Hc Hcs]; subst.
  cbn [fold_left]. rewrite join_sep_cons.
  assert (join_step "/" c = "/" +:+ c) as ->.
  { unfold join_step.
    rewrite no_sep_startswith by (by apply clean_no_sep). reflexivity. }
  rewrite fold_join_step_slashed; [by rewrite append_assoc|exact Hcs|done|].
  apply endswith_sep_app; auto using clean_nonempty, clean_no_sep.
Qed.

(** [realpath] of [/c1/.../cn] or [//c1/.../cn] when none of [/c1],
    [/c1/c2], ... is a link: the components are joined again, whether
    they exist on disk or not. *)
Lemma realpath_no_links (comps : list string) (a : string) :
  Forall (fun x => clean x = true) comps ->
  Forall (not_link fs) (trail "/" comps) ->
  a = "/" +:+ join_sep comps \/ a = "//" +:+ join_sep comps ->
  realpath fs false a = Returns ("/" +:+ join_sep comps).
Proof.
  intros Hcl Htr Ha. unfold realpath, realpath_fuel.
  cbn [_joinrealpath].
  assert (Hiters :
    joinrealpath_loop (_joinrealpath (frames fs) fs false) fs false
      (partitions (tail1 a)) "/" ∅ =
    Returns ("/" +:+ join_sep comps, true, ∅)).
  { assert (Hmain :
      joinrealpath_loop (_joinrealpath (frames fs) fs false) fs false
        (partitions (join_sep comps)) "/" ∅ =
      Returns ("/" +:+ join_sep comps, true, ∅)).
    { rewrite joinrealpath_loop_no_links;
        rewrite ?partitions_join_sep by done; try done.
      by rewrite fold_join_step_root. }
    destruct Ha as [-> | ->].
    - exact Hmain.
    - change (tail1 ("//" +:+ join_sep comps))
        with (String sep (join_sep comps)).
      cbn [partitions]. change (is_sep sep) with true. cbn iota.
      cbn [joinrealpath_loop nonempty negb orb]. exact Hmain. }
  assert (isabs a = true) as -> by (by destruct Ha as [-> | ->]).
  rewrite Hiters. unfold abspath.
  assert (isabs ("/" +:+ join_sep comps) = true) as -> by reflexivity.
  by rewrite normpath_clean.
Qed.

Lemma isabs_join_cwd (path : string) :
  isabs (cwd fs) = true -> isabs (join (cwd fs) [path]) = true.
Proof.
  intros Habs. cbn [join fold_left]. unfold join_step, isabs in *.
  destruct (startswith path "/") eqn:Hp; [exact Hp|].
  destruct (cwd fs) as [|c d]; [discriminate|].
  destruct (negb (nonempty (String c d)) || endswith_sep (String c d));
    rewrite append_cons; exact Habs.
Qed.

(** The resolver on a path none of whose ancestors is a link: the
    lexical normalisation [abspath] of the path, under a single root. *)
Lemma resolved_without_links (path : string) :
  isabs (cwd fs) = true ->
  Forall (not_link fs) (trail "/" (components (abspath fs path))) ->
  _get_resolved_path fs path = Returns (single_root (abspath fs path)).
Proof.
  intros Hcwd Htr. unfold _get_resolved_path.
  assert (Hshape : exists comps,
             Forall (fun x => clean x = true) comps /\
             (abspath fs path = "/" +:+ join_sep comps \/
              abspath fs path = "//" +:+ join_sep comps)).
  { unfold abspath. apply normpath_absolute.
    destruct (isabs path) eqn:Hp; [exact Hp | by apply isabs_join_cwd]. }
  destruct Hshape as (comps & Hcl & Ha).
  assert (Hcomps : components (abspath fs path) = comps).
  { destruct Ha as [-> | ->];
      [by apply components_single_root | by apply components_double_root]. }
  rewrite Hcomps in Htr.
  rewrite (realpath_no_links comps) by done.
  cbn [bind]. rewrite normpath_clean by done.
  f_equal. unfold single_root. destruct Ha as [-> | ->].
  - change ("/" +:+ join_sep comps) with (String sep (join_sep comps)).
    assert (startswith (String sep (join_sep comps)) "//" = false) as ->
      by (cbn -[join_sep]; fold (startswith (join_sep comps) "/");
          by apply join_sep_not_absolute).
    reflexivity.
  - reflexivity.
Qed.

End resolve_without_links.

(** ** Calls that return *)

Lemma resolved_of (fs : filesystem) (path p : string) :
  _get_resolved_path fs path = Returns p -> resolved fs path = p.
Proof. unfold resolved. by intros ->. Qed.

Lemma _is_bad_path_returns (fs : filesystem) (path base : string) (b : bool) :
  _is_bad_path fs path base = Returns b <->
  exists p, _get_resolved_path fs (posixpath.join base [path]) = Returns p /\
            b = negb (pystr.startswith p base).
Proof.
  unfold _is_bad_path.
  destruct (_get_resolved_path fs (posixpath.join base [path])) as [p|e];
    cbn [bind].
  - split.
    + intros H. injection H as <-. eauto.
    + intros (q & Hq & ->). by injection Hq as <-.
  - split; [discriminate | intros (q & Hq & _); discriminate Hq].
Qed.

Lemma bad_path_of (fs : filesystem) (path base : string) (b : bool) :
  _is_bad_path fs path base = Returns b ->
  b = negb (pystr.startswith (resolved fs (posixpath.join base [path])) base).
Proof.
  intros H. apply _is_bad_path_returns in H as (p & Hp & ->).
  by rewrite (resolved_of _ _ _ Hp).
Qed.

Lemma _is_bad_link_returns (fs : filesystem) (m : TarInfo) (base : string)
    (b : bool) :
  _is_bad_link fs m base = Returns b <->
  exists tip,
    _get_resolved_path fs (posixpath.join base [posixpath.dirname (name m)])
    = Returns tip /\
    _is_bad_path fs (linkname m) tip = Returns b.
Proof.
  unfold _is_bad_link.
  destruct (_get_resolved_path fs
              (posixpath.join base [posixpath.dirname (name m)])) as [tip|e];
    cbn [bind].
  - split; [eauto|]. intros (q & Hq & Hb). by injection Hq as <-.
  - split; [discriminate | intros (q & Hq & _); discriminate Hq].
Qed.

Lemma bad_link_of (fs : filesystem) (m : TarInfo) (base : string) (b : bool) :
  _is_bad_link fs m base = Returns b ->
  b = negb (link_accepted fs base m).
Proof.
  intros H. apply _is_bad_link_returns in H as (tip & Htip & Hb).
  unfold link_accepted. rewrite (resolved_of _ _ _ Htip).
  by apply bad_path_of.
Qed.

(** The chain of tests, by the outcome of each. *)
Lemma classify_bad_path (fs : filesystem) (base : string) (m : TarInfo) :
  _is_bad_path fs (name m) base = Returns true ->
  classify fs base m = Returns BlockedPath.
Proof. unfold classify. by intros ->. Qed.

Lemma classify_not_link (fs : filesystem) (base : string) (m : TarInfo) :
  _is_bad_path fs (name m) base = Returns false ->
  issym m = false -> islnk m = false ->
  classify fs base m = Returns Safe.
Proof. unfold classify. by intros -> -> ->. Qed.

Lemma classify_link (fs : filesystem) (base : string) (m : TarInfo) (b : bool) :
  _is_bad_path fs (name m) base = Returns false ->
  issym m || islnk m = true ->
  _is_bad_link fs m base = Returns b ->
  classify fs base m =
  Returns (if b then (if issym m then BlockedSymlink else BlockedHardlink)
           else Safe).
Proof.
  unfold classify, and_then. intros -> Hl ->. cbn [bind].
  destruct (issym m), (islnk m), b; try discriminate Hl; reflexivity.
Qed.

Lemma classify_returns (fs : filesystem) (base : string) (m : TarInfo)
    (c : classification) :
  classify fs base m = Returns c ->
  verdict fs base m = c /\
  is_safe c = accepted fs base m /\
  (c = BlockedPath <-> name_accepted fs base m = false).
Proof.
  intros Hc. split; [unfold verdict; by rewrite Hc|].
  unfold classify, and_then in Hc. unfold accepted, name_accepted.
  destruct (_is_bad_path fs (name m) base) as [bp|e] eqn:Hbp;
    cbn [bind] in Hc; [|discriminate].
  rewrite <- (negb_involutive (pystr.startswith _ base)),
    <- (bad_path_of _ _ _ _ Hbp).
  destruct bp; [injection Hc as <-; by split|]. cbn [negb andb].
  destruct (issym m) eqn:Hs, (islnk m) eqn:Hl; cbn [orb negb] in *;
    try (destruct (_is_bad_link fs m base) as [bl|e] eqn:Hbl;
         cbn [bind] in Hc; [|discriminate];
         rewrite <- (negb_involutive (link_accepted fs base m)),
           <- (bad_link_of _ _ _ _ Hbl);
         destruct bl; cbn [bind] in Hc);
    try (injection Hc as <-); by split.
Qed.

(** One turn of the generator's loop, by the classification of the
    member. *)
Lemma safe_members_loop_cons (consume : TarInfo -> world -> outcome world)
    (base : string) (m : TarInfo) (ms : list TarInfo) (w : world) :
  safe_members_loop consume base (m :: ms) w =
  (do c <- classify (disk w) base m;;
   match c with
   | Safe =>
       do w1 <- consume m w;;
       do (yielded, w') <- safe_members_loop consume base ms w1;;
       Returns (m :: yielded, w')
   | _ =>
       safe_members_loop consume base ms
         (MkWorld (disk w) (records w ++ diagnostic m c))
   end).
Proof.
  cbn [safe_members_loop]. unfold classify, and_then.
  destruct (_is_bad_path (disk w) (name m) base) as [[|]|e]; cbn [bind];
    try reflexivity.
  destruct (issym m), (islnk m);
    try (destruct (_is_bad_link (disk w) m base) as [[|]|e]; cbn [bind]);
    reflexivity.
Qed.

(** ** Runs of the generator *)

Lemma safe_members_loop_app (consume : TarInfo -> world -> outcome world)
    (base : string) (ms1 ms2 : list TarInfo) :
  forall w,
    safe_members_loop consume base (ms1 ++ ms2) w =
    (do (out1, w1) <- safe_members_loop consume base ms1 w;;
     do (out2, w2) <- safe_members_loop consume base ms2 w1;;
     Returns (out1 ++ out2, w2)).
Proof.
  induction ms1 as [|m ms1 IH]; intros w.
  - cbn [app safe_members_loop bind].
    by destruct (safe_members_loop consume base ms2 w) as [[out2 w2]|e].
  - cbn [app]. rewrite !safe_members_loop_cons.
    destruct (classify (disk w) base m) as [c|e]; cbn [bind]; [|reflexivity].
    destruct c; try apply IH.
    destruct (consume m w) as [w1|e]; cbn [bind]; [|reflexivity].
    rewrite IH.
    destruct (safe_members_loop consume base ms1 w1) as [[out1 w1']|e];
      cbn [bind]; [|reflexivity].
    by destruct (safe_members_loop consume base ms2 w1') as [[out2 w2]|e].
Qed.

Lemma yielded_sublist (consume : TarInfo -> world -> outcome world)
    (base : string) (members : list TarInfo) :
  forall w out w',
    safe_members_loop consume base members w = Returns (out, w') ->
    sublist out members.
Proof.
  induction members as [|m ms IH]; intros w out w' Hrun.
  - cbn in Hrun. injection Hrun as <- _. constructor.
  - rewrite safe_members_loop_cons in Hrun.
    destruct (classify (disk w) base m) as [c|e]; cbn [bind] in Hrun;
      [|discriminate].
    destruct c; try (constructor; by eapply IH).
    destruct (consume m w) as [w1|e]; cbn [bind] in Hrun; [|discriminate].
    destruct (safe_members_loop consume base ms w1) as [[ys w2]|e] eqn:Hrest;
      cbn [bind] in Hrun; [|discriminate].
    injection Hrun as <- <-. constructor. by eapply IH.
Qed.

(** The generator run to its end on one disk: what it returns, when it
    does. *)
Lemma collected_iff (base : string) (members : list TarInfo) :
  forall w out w',
    safe_members_loop collect base members w = Returns (out, w') <->
    Forall (fun m => classify (disk w) base m
                     = Returns (verdict (disk w) base m)) members /\
    out = List.filter (fun m => is_safe (verdict (disk w) base m)) members /\
    w' = MkWorld (disk w)
           (records w ++
            flat_map (fun m => diagnostic m (verdict (disk w) base m)) members).
Proof.
  induction members as [|m ms IH]; intros w out w'.
  - cbn. rewrite app_nil_r. destruct w as [fs recs]. cbn. split.
    + intros [= <- <-]. by repeat split.
    + by intros (_ & -> & ->).
  - rewrite safe_members_loop_cons. cbn [List.filter flat_map].
    rewrite Forall_cons.
    destruct (classify (disk w) base m) as [c|e] eqn:Hc; cbn [bind].
    2:{ split; [discriminate|]. by intros ((Hm & _) & _). }
    assert (Hv : verdict (disk w) base m = c)
      by (unfold verdict; by rewrite Hc).
    rewrite Hv.
    destruct c; cbn [is_safe diagnostic];
      try (rewrite IH; cbn [disk records]; rewrite <- app_assoc;
           split; [by intros (? & -> & ->) | by intros ((_ & ?) & -> & ->)]).
    unfold collect at 1. cbn [bind app].
    destruct (safe_members_loop collect base ms w) as [[ys w2]|e] eqn:Hrest;
      cbn [bind].
    + apply IH in Hrest as (Hall & -> & ->). split.
      * intros [= <- <-]. by repeat split.
      * by intros (_ & -> & ->).
    + split; [discriminate|]. intros ((_ & Hall) & _ & _).
      assert (Hex : safe_members_loop collect base ms w
                    = Returns
                        (List.filter
                           (fun m => is_safe (verdict (disk w) base m)) ms,
                         MkWorld (disk w)
                           (records w ++
                            flat_map
                              (fun m => diagnostic m (verdict (disk w) base m))
                              ms)))
        by (by apply IH).
      rewrite Hrest in Hex. discriminate Hex.
Qed.

Lemma _get_safe_members_returns (members : list TarInfo) (w : world)
    (out : list TarInfo) (w' : world) :
  _get_safe_members members w = Returns (out, w') <->
  exists base,
    _get_resolved_path (disk w) "." = Returns base /\
    Forall (fun m => classify (disk w) base m
                     = Returns (verdict (disk w) base m)) members /\
    out = List.filter (fun m => is_safe (verdict (disk w) base m)) members /\
    w' = MkWorld (disk w)
           (records w ++
            flat_map (fun m => diagnostic m (verdict (disk w) base m)) members).
Proof.
  unfold _get_safe_members, consume_safe_members.
  destruct (_get_resolved_path (disk w) ".") as [base|e]; cbn [bind].
  - rewrite collected_iff. split; [eauto|].
    intros (b & Hb & H). by injection Hb as <-.
  - split; [discriminate | intros (b & Hb & _); discriminate Hb].
Qed.

(** The generator in the hands of [extractall], turn by turn. *)
Lemma extracted_iff (lib : tarfile_library) (path base : string)
    (members : list TarInfo) :
  forall w out w',
    safe_members_loop (extracting lib path) base members w = Returns (out, w')
    <-> consumed lib path base members w out w'.
Proof.
  induction members as [|m ms IH]; intros w out w'.
  - cbn. split.
    + intros [= <- <-]. constructor.
    + inversion 1; subst. reflexivity.
  - rewrite safe_members_loop_cons. split.
    + destruct (classify (disk w) base m) as [c|e] eqn:Hc; cbn [bind];
        [|discriminate].
      destruct c;
        try (intros Hrun; apply IH in Hrun;
             by eapply consumed_blocked; [exact Hc | | exact Hrun]).
      unfold extracting at 1.
      destruct (extract_member lib path m (disk w)) as [fs1|e] eqn:He;
        cbn [bind]; [|discriminate].
      destruct (safe_members_loop (extracting lib path) base ms
                  (MkWorld fs1 (records w))) as [[ys w2]|e] eqn:Hrest;
        cbn [bind]; [|discriminate].
      intros [= <- <-]. apply IH in Hrest. by eapply consumed_safe.
    + inversion 1 as [|? ? ? c ? ? Hc Hne Hrest|? ? ? fs1 ? ? Hc He Hrest];
        subst; rewrite Hc; cbn [bind].
      * apply IH in Hrest. by destruct c.
      * unfold extracting at 1. rewrite He. cbn [bind].
        apply IH in Hrest. by rewrite Hrest.
Qed.

(** ** Disks with the same links *)

Section links_only.

Import posixpath.

Variables fs fs' : filesystem.
Hypothesis Hsame : same_links fs fs'.

Lemma link_view_same (p : string) :
  link_view (lstat fs p) = link_view (lstat fs' p).
Proof.
  destruct Hsame as (_ & _ & Hlinks). specialize (Hlinks p).
  unfold lstat in *. destruct (pystr.has_nul p); [reflexivity|].
  destruct (entries fs !! p) as [[| |t]|], (entries fs' !! p) as [[| |t']|];
    cbn; try reflexivity;
    try (by pose proof (proj1 (Hlinks t) eq_refl));
    try (by pose proof (proj2 (Hlinks t') eq_refl)).
  pose proof (proj1 (Hlinks t) eq_refl) as H. by injection H as ->.
Qed.

Lemma joinrealpath_loop_same_links
    (rl rl' : string -> string -> seen_map -> outcome (string * bool * seen_map))
    (iters : list (string * string)) :
  (forall p t s, rl p t s = rl' p t s) ->
  forall path seen,
    joinrealpath_loop rl fs false iters path seen
    = joinrealpath_loop rl' fs' false iters path seen.
Proof.
  intros Hrl.
  induction iters as [|[nm rest] iters IH]; intros path seen;
    cbn [joinrealpath_loop]; [done|].
  destruct (negb (pystr.nonempty nm) || String.eqb nm curdir); [apply IH|].
  destruct (String.eqb nm pardir); [apply IH|].
  pose proof (link_view_same (join path [nm])) as Hl.
  destruct (lstat fs (join path [nm])) as [[| |t]|[]];
    destruct (lstat fs' (join path [nm])) as [[| |t']|[]];
    cbn in Hl; try discriminate Hl; try reflexivity; try apply IH.
  injection Hl as <-.
  destruct (seen !! join path [nm]) as [[cached|]|]; [apply IH|done|].
  rewrite Hrl.
  destruct (rl' path t (<[join path [nm]:=None]> seen))
    as [[[p ok] seen1]|]; [|done].
  destruct ok; cbn [negb]; [apply IH|done].
Qed.

Lemma _joinrealpath_same_links (n : nat) :
  forall path rest seen,
    _joinrealpath n fs false path rest seen
    = _joinrealpath n fs' false path rest seen.
Proof.
  induction n as [|n IH]; intros path rest seen; [done|].
  cbn [_joinrealpath].
  destruct (isabs rest); by apply joinrealpath_loop_same_links.
Qed.

Lemma _get_resolved_path_same_links (path : string) :
  _get_resolved_path fs path = _get_resolved_path fs' path.
Proof.
  unfold _get_resolved_path, realpath, realpath_fuel, abspath.
  destruct Hsame as (<- & <- & _).
  by rewrite _joinrealpath_same_links.
Qed.

Lemma _is_bad_path_same_links (path base : string) :
  _is_bad_path fs path base = _is_bad_path fs' path base.
Proof. unfold _is_bad_path. by rewrite _get_resolved_path_same_links. Qed.

Lemma _is_bad_link_same_links (m : TarInfo) (base : string) :
  _is_bad_link fs m base = _is_bad_link fs' m base.
Proof.
  unfold _is_bad_link. rewrite _get_resolved_path_same_links.
  destruct (_get_resolved_path fs' _) as [tip|e]; cbn [bind]; [|done].
  apply _is_bad_path_same_links.
Qed.

Lemma classify_same_links (base : string) (m : TarInfo) :
  classify fs base m = classify fs' base m.
Proof.
  unfold classify.
  by rewrite _is_bad_path_same_links, _is_bad_link_same_links.
Qed.

End links_only.

Lemma same_links_refl (fs : filesystem) : same_links fs fs.
Proof. by repeat split. Qed.

Lemma same_links_trans (fs1 fs2 fs3 : filesystem) :
  same_links fs1 fs2 -> same_links fs2 fs3 -> same_links fs1 fs3.
Proof.
  intros (Hc & Hf & Hl) (Hc' & Hf' & Hl'). repeat split; try congruence.
  - intros H. by apply Hl', Hl.
  - intros H. by apply Hl, Hl'.
Qed.

Lemma not_link_same_links (fs fs' : filesystem) (p : string) :
  same_links fs fs' -> not_link fs p -> not_link fs' p.
Proof.
  intros Hsame. unfold not_link.
  pose proof (link_view_same fs fs' Hsame p) as Hl.
  destruct (lstat fs p) as [[| |t]|[]], (lstat fs' p) as [[| |t']|[]];
    cbn in Hl; try discriminate Hl; done.
Qed.

Lemma same_links_sym (fs fs' : filesystem) :
  same_links fs fs' -> same_links fs' fs.
Proof.
  intros (Hc & Hf & Hl). repeat split; try done; by apply Hl.
Qed.

(** Writing a file or a directory where no link is does not change the
    links. *)
Lemma same_links_insert_node (fs : filesystem) (p : string) (n : node) :
  is_link n = false -> not_link fs p ->
  same_links fs (Disk (cwd fs) (<[p := n]> (entries fs)) (frames fs)).
Proof.
  intros Hn Hp. split; [reflexivity|]. split; [reflexivity|].
  intros q t. unfold not_link, lstat in *. cbn [entries].
  destruct (pystr.has_nul q) eqn:Hq; [done|].
  destruct (decide (p = q)) as [<- | Hne].
  - rewrite lookup_insert_eq. rewrite Hq in Hp.
    destruct n; try discriminate Hn;
      destruct (entries fs !! p) as [[| |t']|]; split; try discriminate; done.
  - by rewrite lookup_insert_ne.
Qed.

(** Writing the same link on two disks that hold the same links. *)
Lemma same_links_insert_link (fs fs' : filesystem) (p t : string) :
  same_links fs fs' ->
  same_links (Disk (cwd fs) (<[p := Symlink t]> (entries fs)) (frames fs))
    (Disk (cwd fs') (<[p := Symlink t]> (entries fs')) (frames fs')).
Proof.
  intros (Hc & Hf & Hl). split; [exact Hc|]. split; [exact Hf|].
  intros q t'. specialize (Hl q t'). unfold lstat in *. cbn [entries].
  destruct (pystr.has_nul q); [done|].
  destruct (decide (p = q)) as [<- | Hne].
  - by rewrite !lookup_insert_eq.
  - by rewrite !lookup_insert_ne.
Qed.

(** ** The entry point *)

(** Without the data filter, the call returns exactly when the base
    resolves and the members are consumed in turn. *)
Lemma custom_extractall_tarfile_fallback
    (lib : tarfile_library) (py : interpreter) (tar : list TarInfo)
    (extract_path : string) (w : world)
    (call : extractall_call) (w' : world) :
  tarfile_has_data_filter py = false ->
  custom_extractall_tarfile lib py tar extract_path w = Returns (call, w') <->
  exists base handed,
    _get_resolved_path (disk w) "." = Returns base /\
    call = Extractall extract_path (Some handed) None /\
    consumed lib extract_path base tar w handed w'.
Proof.
  intros Hpy. unfold custom_extractall_tarfile, consume_safe_members.
  rewrite Hpy.
  destruct (_get_resolved_path (disk w) ".") as [base|e]; cbn [bind].
  - destruct (safe_members_loop (extracting lib extract_path) base tar w)
      as [[handed w1]|e] eqn:Hrun; cbn [bind].
    + apply extracted_iff in Hrun. split.
      * intros [= <- <-]. eauto.
      * intros (b & h & [= <-] & -> & Hc).
        apply extracted_iff in Hrun, Hc. rewrite Hrun in Hc.
        by injection Hc as <- <-.
    + split; [discriminate|].
      intros (b & h & [= <-] & -> & Hc). apply extracted_iff in Hc.
      rewrite Hrun in Hc. discriminate Hc.
  - split; [discriminate | intros (b & h & Hb & _); discriminate Hb].
Qed.

Lemma entry_point_hands_over
    (lib : tarfile_library) (tar : list TarInfo) (extract_path : string)
    (w : world) (base : string) (handed : list TarInfo) (w' : world) :
  _get_resolved_path (disk w) "." = Returns base ->
  consumed lib extract_path base tar w handed w' ->
  custom_extractall_tarfile lib (MkInterp false) tar extract_path w
  = Returns (Extractall extract_path (Some handed) None, w').
Proof.
  intros Hb Hc. apply custom_extractall_tarfile_fallback; [reflexivity|].
  eauto.
Qed.

(** ** The scenario with a member under the parent directory *)

(** C5: with the working directory [/out], where the archive is extracted,
    and no link at [/out], [/out/a.txt], [/out/sub], [/out/sub/c.txt] and
    [/b.txt], the members [a.txt], [../b.txt], [sub/c.txt] are filtered to
    [a.txt], [sub/c.txt] in that order; [../b.txt] is BlockedPath and one
    diagnostic names it; the entry point hands exactly the two safe members
    to [extractall], whatever the library whose extraction of a file leaves
    the links of the disk alone, and both are written under [/out]. *)
Theorem scenario_parent_member_blocked (e : gmap string node) :
  let fs := MkFs "/out" e in
  let members := [regular "a.txt"; regular "../b.txt"; regular "sub/c.txt"] in
  let safe := [regular "a.txt"; regular "sub/c.txt"] in
  let w' := MkWorld fs [MkLog "%s is blocked (illegal path)" ["../b.txt"]] in
  not_link fs "/out" -> not_link fs "/out/a.txt" -> not_link fs "/out/sub" ->
  not_link fs "/out/sub/c.txt" -> not_link fs "/b.txt" ->
  _get_safe_members members (MkWorld fs []) = Returns (safe, w') /\
  classify fs "/out" (regular "../b.txt") = Returns BlockedPath /\
  (forall lib fs1 fs2,
      keeps_links lib ->
      extract_member lib "/out" (regular "a.txt") fs = Returns fs1 ->
      extract_member lib "/out" (regular "sub/c.txt") fs1 = Returns fs2 ->
      custom_extractall_tarfile lib (MkInterp false) members "/out"
        (MkWorld fs [])
      = Returns
          (Extractall "/out" (Some safe) None,
           MkWorld fs2 [MkLog "%s is blocked (illegal path)" ["../b.txt"]])) /\
  Forall (fun m => is_within "/out" (resolved fs (extract_target "/out" m)) = true)
    safe /\
  resolved fs (extract_target "/out" (regular "../b.txt")) = "/b.txt".
Proof.
  intros fs members safe w' Hout Ha Hsub Hc Hb.
  assert (Hbase : _get_resolved_path fs "." = Returns "/out").
  { rewrite resolved_without_links;
      [reflexivity | reflexivity | vm_compute; by repeat constructor]. }
  assert (Hra : _get_resolved_path fs "/out/a.txt" = Returns "/out/a.txt").
  { rewrite resolved_without_links;
      [reflexivity | reflexivity | vm_compute; by repeat constructor]. }
  assert (Hrb : _get_resolved_path fs "/out/../b.txt" = Returns "/b.txt").
  { rewrite resolved_without_links;
      [reflexivity | reflexivity | vm_compute; by repeat constructor]. }
  assert (Hrc : _get_resolved_path fs "/out/sub/c.txt"
                = Returns "/out/sub/c.txt").
  { rewrite resolved_without_links;
      [reflexivity | reflexivity | vm_compute; by repeat constructor]. }
  assert (Hca : classify fs "/out" (regular "a.txt") = Returns Safe).
  { apply classify_not_link; try reflexivity. unfold _is_bad_path.
    change (posixpath.join "/out" [name (regular "a.txt")]) with "/out/a.txt".
    by rewrite Hra. }
  assert (Hcb : classify fs "/out" (regular "../b.txt") = Returns BlockedPath).
  { apply classify_bad_path. unfold _is_bad_path.
    change (posixpath.join "/out" [name (regular "../b.txt")])
      with "/out/../b.txt".
    by rewrite Hrb. }
  assert (Hcc : classify fs "/out" (regular "sub/c.txt") = Returns Safe).
  { apply classify_not_link; try reflexivity. unfold _is_bad_path.
    change (posixpath.join "/out" [name (regular "sub/c.txt")])
      with "/out/sub/c.txt".
    by rewrite Hrc. }
  split; [|split; [exact Hcb|split; [|split]]].
  - unfold _get_safe_members, consume_safe_members. cbn [disk].
    rewrite Hbase. cbn [bind]. subst members.
    rewrite !safe_members_loop_cons. cbn [disk records].
    rewrite Hca. cbn [bind collect]. rewrite safe_members_loop_cons.
    cbn [disk records]. rewrite Hcb. cbn [bind].
    rewrite safe_members_loop_cons. cbn [disk records].
    rewrite Hcc. reflexivity.
  - intros lib fs1 fs2 Hlib He1 He2.
    assert (Hs1 : same_links fs fs1) by (by eapply Hlib; [| |exact He1]).
    eapply entry_point_hands_over; [exact Hbase|].
    eapply consumed_safe; [exact Hca | exact He1 |].
    eapply consumed_blocked;
      [cbn [disk]; rewrite <- (classify_same_links fs fs1 Hs1); exact Hcb
      | discriminate |].
    eapply consumed_safe;
      [cbn [disk]; rewrite <- (classify_same_links fs fs1 Hs1); exact Hcc
      | exact He2 |].
    apply consumed_nil.
  - repeat constructor.
    + change (extract_target "/out" (regular "a.txt")) with "/out/a.txt".
      by rewrite (resolved_of _ _ _ Hra).
    + change (extract_target "/out" (regular "sub/c.txt"))
        with "/out/sub/c.txt".
      by rewrite (resolved_of _ _ _ Hrc).
  - exact (resolved_of _ _ _ Hrb).
Qed.

Lemma scenario_parent_member_blocked_witness :
  let fs := empty_disk "/out" in
  _get_safe_members
    [regular "a.txt"; regular "../b.txt"; regular "sub/c.txt"] (MkWorld fs [])
  = Returns
      ([regular "a.txt"; regular "sub/c.txt"],
       MkWorld fs [MkLog "%s is blocked (illegal path)" ["../b.txt"]]).
Proof.
  intros fs.
  apply (scenario_parent_member_blocked ∅); vm_compute; exact I.
Defined.

(** ** What the path check compares *)

(** C1, evaluated where it fails: run in [/out] over the single regular
    member [../outside/x], the filter yields the member and logs nothing,
    and the entry point hands it to [extractall] for [/out], whose
    extraction of it the call then returns; yet the member's name joined to
    the base resolves to [/outside/x], which is neither [/out] nor below
    it.  The check accepted it because [/outside/x] begins with the
    characters of [/out]. *)
Theorem sibling_member_is_yielded :
  let fs := empty_disk "/out" in
  let m := regular "../outside/x" in
  resolved fs "." = "/out" /\
  _get_safe_members [m] (MkWorld fs []) = Returns ([m], MkWorld fs []) /\
  (forall lib fs',
      extract_member lib "/out" m fs = Returns fs' ->
      custom_extractall_tarfile lib (MkInterp false) [m] "/out" (MkWorld fs [])
      = Returns (Extractall "/out" (Some [m]) None, MkWorld fs' [])) /\
  resolved fs (posixpath.join "/out" [name m]) = "/outside/x" /\
  resolved fs (extract_target "/out" m) = "/outside/x" /\
  is_within "/out" "/outside/x" = false /\
  pystr.startswith "/outside/x" "/out" = true.
Proof.
  intros fs m.
  split; [by vm_compute|]. split; [by vm_compute|].
  split; [|vm_compute; by repeat split].
  intros lib fs' He.
  eapply (entry_point_hands_over lib [m] "/out" (MkWorld fs []) "/out");
    [by vm_compute|].
  eapply consumed_safe; [by vm_compute | exact He | apply consumed_nil].
Qed.

(** C2, evaluated where it fails: against the base [/out] the name
    [../outside] resolves to the sibling [/outside], and against [/base] the
    name [../base-evil/x] resolves to [/base-evil/x]; the path check returns
    [False] for both and the members are classified Safe, not BlockedPath.
    The comparison is [startswith] on the resolved path and the base as
    given, with no separator put after the base. *)
Theorem sibling_path_is_not_blocked :
  resolved (empty_disk "/out") (posixpath.join "/out" ["../outside"])
  = "/outside" /\
  _is_bad_path (empty_disk "/out") "../outside" "/out" = Returns false /\
  classify (empty_disk "/out") "/out" (regular "../outside") = Returns Safe /\
  resolved (empty_disk "/base") (posixpath.join "/base" ["../base-evil/x"])
  = "/base-evil/x" /\
  _is_bad_path (empty_disk "/base") "../base-evil/x" "/base" = Returns false /\
  classify (empty_disk "/base") "/base" (regular "../base-evil/x")
  = Returns Safe /\
  is_within "/out" "/outside" = false /\
  is_within "/base" "/base-evil/x" = false.
Proof. vm_compute. repeat split; reflexivity. Qed.

(** C3, evaluated where it fails: run in [/work] and asked to extract into
    [/out], the filter takes [/work], the resolved working directory, for
    its base, not [/out].  It yields [../work/x], which [extractall] then
    writes at [/work/x], outside [/out]; and it blocks [../out/y], which
    would have been written at [/out/y].  This is so whatever the library
    whose extraction of a file leaves the links of the disk alone. *)
Theorem base_is_working_directory_not_extract_path :
  let fs := empty_disk "/work" in
  let tar := [regular "../work/x"; regular "a.txt"; regular "../out/y"] in
  resolved fs "." = "/work" /\
  resolved fs "/out" = "/out" /\
  (forall lib fs1 fs2,
      keeps_links lib ->
      extract_member lib "/out" (regular "../work/x") fs = Returns fs1 ->
      extract_member lib "/out" (regular "a.txt") fs1 = Returns fs2 ->
      custom_extractall_tarfile lib (MkInterp false) tar "/out" (MkWorld fs [])
      = Returns
          (Extractall "/out" (Some [regular "../work/x"; regular "a.txt"]) None,
           MkWorld fs2 [MkLog "%s is blocked (illegal path)" ["../out/y"]])) /\
  resolved fs (extract_target "/out" (regular "../work/x")) = "/work/x" /\
  is_within "/out" "/work/x" = false /\
  resolved fs (extract_target "/out" (regular "../out/y")) = "/out/y" /\
  is_within "/out" "/out/y" = true.
Proof.
  intros fs tar.
  split; [by vm_compute|]. split; [by vm_compute|].
  split; [|vm_compute; by repeat split].
  intros lib fs1 fs2 Hlib He1 He2.
  assert (Hs1 : same_links fs fs1) by (by eapply Hlib; [| |exact He1]).
  assert (Hs2 : same_links fs fs2).
  { eapply same_links_trans; [exact Hs1|]. by eapply Hlib; [| |exact He2]. }
  eapply (entry_point_hands_over lib tar "/out" (MkWorld fs []) "/work");
    [by vm_compute|].
  eapply consumed_safe; [by vm_compute | exact He1 |].
  eapply consumed_safe;
    [cbn [disk]; rewrite <- (classify_same_links fs fs1 Hs1); by vm_compute
    | exact He2 |].
  eapply consumed_blocked;
    [cbn [disk]; rewrite <- (classify_same_links fs fs2 Hs2); by vm_compute
    | discriminate |].
  apply consumed_nil.
Qed.

(** C4, evaluated where it fails: under the base [/out], the symbolic link
    [sub/link] to [../a.txt] and the hard link [sub/hard] to [../a.txt] have
    names that pass the path check and a target that resolves, from the
    link's directory [/out/sub], to [/out/a.txt] inside the base; both are
    blocked, because the target is compared with [/out/sub], not with the
    base.  In the other direction the link [l] to [../outside/secret] is
    Safe although its target resolves outside the base. *)
Theorem link_inside_base_is_blocked :
  let fs := empty_disk "/out" in
  let sym := MkTarInfo "sub/link" SYMTYPE "../a.txt" in
  let hard := MkTarInfo "sub/hard" LNKTYPE "../a.txt" in
  let out := MkTarInfo "l" SYMTYPE "../outside/secret" in
  _is_bad_path fs (name sym) "/out" = Returns false /\
  resolved fs (posixpath.join "/out" [posixpath.dirname (name sym)])
  = "/out/sub" /\
  resolved fs (posixpath.join "/out/sub" [linkname sym]) = "/out/a.txt" /\
  is_within "/out" "/out/a.txt" = true /\
  _is_bad_link fs sym "/out" = Returns true /\
  classify fs "/out" sym = Returns BlockedSymlink /\
  classify fs "/out" hard = Returns BlockedHardlink /\
  resolved fs (posixpath.join "/out" [linkname out]) = "/outside/secret" /\
  is_within "/out" "/outside/secret" = false /\
  classify fs "/out" out = Returns Safe.
Proof. vm_compute. repeat split; reflexivity. Qed.

(** ** What a run that returns has decided *)

Lemma classify_decision (fs : filesystem) (base : string) (m : TarInfo)
    (c : classification) :
  classify fs base m = Returns c -> c = decision fs base m.
Proof.
  intros Hc. unfold classify, and_then in Hc. unfold decision, name_accepted.
  destruct (_is_bad_path fs (name m) base) as [bp|e] eqn:Hbp;
    cbn [bind] in Hc; [|discriminate].
  rewrite <- (negb_involutive (pystr.startswith _ base)),
    <- (bad_path_of _ _ _ _ Hbp).
  destruct bp; [by injection Hc as <-|]. cbn [negb].
  destruct (issym m) eqn:Hs, (islnk m) eqn:Hl; cbn [andb] in *;
    try (destruct (_is_bad_link fs m base) as [bl|e] eqn:Hbl;
         cbn [bind] in Hc; [|discriminate];
         rewrite <- (negb_involutive (link_accepted fs base m)),
           <- (bad_link_of _ _ _ _ Hbl);
         destruct bl; cbn [bind negb] in Hc |- * );
    by injection Hc as <-.
Qed.

Lemma is_safe_decision (fs : filesystem) (base : string) (m : TarInfo) :
  is_safe (decision fs base m) = accepted fs base m.
Proof.
  unfold decision, accepted.
  by destruct (name_accepted fs base m), (issym m), (islnk m),
    (link_accepted fs base m).
Qed.

Lemma verdicts_are_decisions (fs : filesystem) (base : string)
    (members : list TarInfo) :
  Forall (fun m => classify fs base m = Returns (verdict fs base m)) members ->
  Forall (fun m => classify fs base m = Returns (decision fs base m)) members /\
  List.filter (fun m => is_safe (verdict fs base m)) members
  = List.filter (accepted fs base) members /\
  flat_map (fun m => diagnostic m (verdict fs base m)) members
  = flat_map (fun m => diagnostic m (decision fs base m)) members.
Proof.
  induction 1 as [|m ms Hm Hms (IH1 & IH2 & IH3)]; [by repeat split|].
  pose proof (classify_decision _ _ _ _ Hm) as Hd.
  cbn [List.filter flat_map]. rewrite IH2, IH3, <- is_safe_decision, <- Hd.
  repeat split. constructor; [by rewrite <- Hd | exact IH1].
Qed.

(** A run of the generator that returns: the base it took, what it
    decided for each member, what it yielded and what it logged. *)
Lemma run_returns (members : list TarInfo) (w : world)
    (out : list TarInfo) (w' : world) :
  _get_safe_members members w = Returns (out, w') <->
  (exists base, _get_resolved_path (disk w) "." = Returns base) /\
  let base := resolved (disk w) "." in
  Forall (fun m => classify (disk w) base m
                   = Returns (decision (disk w) base m)) members /\
  out = List.filter (accepted (disk w) base) members /\
  w' = MkWorld (disk w)
         (records w ++
          flat_map (fun m => diagnostic m (decision (disk w) base m)) members).
Proof.
  rewrite _get_safe_members_returns. split.
  - intros (base & Hb & Hall & -> & ->).
    split; [eauto|]. rewrite (resolved_of _ _ _ Hb). cbn zeta.
    by destruct (verdicts_are_decisions _ _ _ Hall) as (? & -> & ->).
  - intros ([base Hb] & Hrest). rewrite (resolved_of _ _ _ Hb) in Hrest.
    cbn zeta in Hrest. destruct Hrest as (Hall & -> & ->).
    assert (Hv : Forall (fun m => classify (disk w) base m
                                  = Returns (verdict (disk w) base m)) members).
    { eapply Forall_impl; [exact Hall|]. intros m Hm. cbn beta in *.
      unfold verdict. by rewrite Hm. }
    exists base. split; [exact Hb|]. split; [exact Hv|].
    by destruct (verdicts_are_decisions _ _ _ Hv) as (_ & -> & ->).
Qed.

Lemma filter_sublist {A : Type} (f : A -> bool) (l : list A) :
  sublist (List.filter f l) l.
Proof.
  induction l as [|a l IH]; [constructor|].
  cbn. destruct (f a); by constructor.
Qed.

(** ** The entry point and its two ways *)

(** C6: with the data filter in [tarfile], the entry point is the call
    [extractall(path, filter="data")] and nothing else: it returns or
    raises as that call does, the log is left as it was, and neither the
    resolver nor the generator is consulted.  Without it, the entry point
    returns exactly when the base resolves and [extractall], fed by the
    generator, takes the members in turn: each one is classified on the
    disk as the extraction of the members before it left it, a Safe one is
    extracted before the next is looked at, another adds its record to the
    log; the members handed over are those extracted. *)
Theorem entry_point_selects_implementation
    (lib : tarfile_library) (py : interpreter) (tar : list TarInfo)
    (extract_path : string) (w : world) :
  (tarfile_has_data_filter py = true ->
   (forall call w',
       custom_extractall_tarfile lib py tar extract_path w = Returns (call, w')
       <->
       exists fs',
         extractall_data lib extract_path tar (disk w) = Returns fs' /\
         call = Extractall extract_path None (Some "data") /\
         w' = MkWorld fs' (records w)) /\
   (forall e,
       custom_extractall_tarfile lib py tar extract_path w = Raises e <->
       extractall_data lib extract_path tar (disk w) = Raises e)) /\
  (tarfile_has_data_filter py = false ->
   forall call w',
     custom_extractall_tarfile lib py tar extract_path w = Returns (call, w')
     <->
     exists base handed,
       _get_resolved_path (disk w) "." = Returns base /\
       call = Extractall extract_path (Some handed) None /\
       consumed lib extract_path base tar w handed w').
Proof.
  split.
  - intros Hpy. unfold custom_extractall_tarfile. rewrite Hpy.
    destruct (extractall_data lib extract_path tar (disk w)) as [fs'|e0];
      cbn [bind]; split.
    + intros call w'. split.
      * intros [= <- <-]. eauto.
      * by intros (fs2 & [= <-] & -> & ->).
    + intros e. split; discriminate.
    + intros call w'. split; [discriminate|].
      intros (fs2 & Hfs2 & _). discriminate Hfs2.
    + intros e. split; intros [= <-]; reflexivity.
  - intros Hpy call w'. by apply custom_extractall_tarfile_fallback.
Qed.

(** What [extractall] writes is what the generator reads next.  In [/out],
    on an empty disk, the third member of the archive below is a link [k]
    to [sub/deep] and the fourth a link [k/l] to [../deep/y].  Whatever
    the library, once the extraction of [k] has left a disk whose one link
    is [/out/k], the fourth member is judged through that link and handed
    over; the generator run alone, on the disk of the start, blocks it. *)
Lemma extraction_feeds_the_generator
    (lib : tarfile_library) (fs1 fs2 fs3 fs4 : filesystem) :
  let sub := MkTarInfo "sub" DIRTYPE "" in
  let deep := MkTarInfo "sub/deep" DIRTYPE "" in
  let k := MkTarInfo "k" SYMTYPE "sub/deep" in
  let kl := MkTarInfo "k/l" SYMTYPE "../deep/y" in
  let fs := empty_disk "/out" in
  extract_member lib "/out" sub fs = Returns fs1 -> same_links fs fs1 ->
  extract_member lib "/out" deep fs1 = Returns fs2 -> same_links fs fs2 ->
  extract_member lib "/out" k fs2 = Returns fs3 ->
  same_links (MkFs "/out" {["/out/k" := Symlink "sub/deep"]}) fs3 ->
  extract_member lib "/out" kl fs3 = Returns fs4 ->
  custom_extractall_tarfile lib (MkInterp false) [sub; deep; k; kl] "/out"
    (MkWorld fs [])
  = Returns (Extractall "/out" (Some [sub; deep; k; kl]) None, MkWorld fs4 [])
  /\
  _get_safe_members [sub; deep; k; kl] (MkWorld fs [])
  = Returns
      ([sub; deep; k],
       MkWorld fs [MkLog "%s is blocked: Symlink to %s" ["k/l"; "../deep/y"]]).
Proof.
  intros sub deep k kl fs He1 Hs1 He2 Hs2 He3 Hs3 He4.
  split; [|by vm_compute].
  eapply (entry_point_hands_over lib _ "/out" (MkWorld fs []) "/out");
    [by vm_compute|].
  eapply consumed_safe; [by vm_compute | exact He1 |].
  eapply consumed_safe;
    [cbn [disk]; rewrite <- (classify_same_links fs fs1 Hs1); by vm_compute
    | exact He2 |].
  eapply consumed_safe;
    [cbn [disk]; rewrite <- (classify_same_links fs fs2 Hs2); by vm_compute
    | exact He3 |].
  eapply consumed_safe;
    [cbn [disk]; rewrite <- (classify_same_links _ fs3 Hs3); by vm_compute
    | exact He4 |].
  apply consumed_nil.
Qed.

(** So it is for a library that writes each member at its place. *)
Example extraction_feeds_the_generator_instance :
  let tar :=
    [MkTarInfo "sub" DIRTYPE ""; MkTarInfo "sub/deep" DIRTYPE "";
     MkTarInfo "k" SYMTYPE "sub/deep"; MkTarInfo "k/l" SYMTYPE "../deep/y"] in
  exists fs4,
    custom_extractall_tarfile writing_library (MkInterp false) tar "/out"
      (MkWorld (empty_disk "/out") [])
    = Returns (Extractall "/out" (Some tar) None, MkWorld fs4 []) /\
    lstat fs4 "/out/k" = Returns (Symlink "sub/deep") /\
    lstat fs4 "/out/k/l" = Returns (Symlink "../deep/y").
Proof.
  intros tar.
  set (fs := empty_disk "/out").
  set (fs1 := Disk "/out" (<["/out/sub" := Directory]> (entries fs))
                python_frames).
  set (fs2 := Disk "/out" (<["/out/sub/deep" := Directory]> (entries fs1))
                python_frames).
  set (fs3 := Disk "/out" (<["/out/k" := Symlink "sub/deep"]> (entries fs2))
                python_frames).
  set (fs4 := Disk "/out" (<["/out/k/l" := Symlink "../deep/y"]> (entries fs3))
                python_frames).
  assert (Hs1 : same_links fs fs1)
    by (apply (same_links_insert_node fs); [reflexivity | by vm_compute]).
  assert (Hs2 : same_links fs fs2).
  { eapply same_links_trans; [exact Hs1|].
    apply (same_links_insert_node fs1); [reflexivity | by vm_compute]. }
  exists fs4. split; [|split; by vm_compute].
  apply (extraction_feeds_the_generator writing_library fs1 fs2 fs3 fs4);
    try reflexivity; try done.
  apply (same_links_insert_link fs fs2 "/out/k" "sub/deep" Hs2).
Qed.

(** ** Order and multiplicity of what is yielded *)

(** C7: when the generator runs to its end, what it yielded is a
    subsequence of the members it was given: the members that the tests
    accept, each as often as it occurs and in the order of the archive, and
    no other; a member yielded is a member given that was classified Safe,
    and members without repetition are yielded without repetition.  The
    members that a generator consumed during the extraction hands to
    [extractall] are a subsequence of the archive as well. *)
Theorem yielded_is_ordered_subsequence
    (members : list TarInfo) (w : world) (out : list TarInfo) (w' : world)
    (Hrun : _get_safe_members members w = Returns (out, w')) :
  let base := resolved (disk w) "." in
  sublist out members /\
  out = List.filter (accepted (disk w) base) members /\
  (forall m, In m out <->
             In m members /\ classify (disk w) base m = Returns Safe) /\
  (NoDup members -> NoDup out) /\
  (forall lib path handed w'',
      consume_safe_members (extracting lib path) members w
      = Returns (handed, w'') ->
      sublist handed members).
Proof.
  intros base.
  apply run_returns in Hrun as (_ & Hall & Hout & _). fold base in Hall, Hout.
  assert (Hsub : sublist out members)
    by (rewrite Hout; apply filter_sublist).
  split; [exact Hsub|]. split; [exact Hout|]. split; [|split].
  - intros m. rewrite Hout, filter_In, <- is_safe_decision. split.
    + intros [Hin Hs]. split; [exact Hin|].
      rewrite List.Forall_forall in Hall. rewrite (Hall m Hin).
      by destruct (decision (disk w) base m).
    + intros [Hin Hc]. split; [exact Hin|].
      by rewrite <- (classify_decision _ _ _ _ Hc).
  - intros Hnd. eapply sublist_NoDup; [exact Hnd | exact Hsub].
  - intros lib path handed w'' Hc. unfold consume_safe_members in Hc.
    destruct (_get_resolved_path (disk w) ".") as [b|e]; cbn [bind] in Hc;
      [|discriminate].
    by eapply yielded_sublist.
Qed.

Lemma yielded_is_ordered_subsequence_witness :
  let a := regular "a.txt" in
  let b := regular "../b.txt" in
  sublist [a; a] [a; b; a] /\
  [a; a] = List.filter
             (accepted (empty_disk "/out") (resolved (empty_disk "/out") "."))
             [a; b; a].
Proof.
  intros a b.
  destruct (yielded_is_ordered_subsequence [a; b; a]
              (MkWorld (empty_disk "/out") []) [a; a]
              (MkWorld (empty_disk "/out")
                 [MkLog "%s is blocked (illegal path)" ["../b.txt"]]))
    as (Hsub & Hout & _).
  - vm_compute. reflexivity.
  - split; [exact Hsub | exact Hout].
Defined.

(** A name with a NUL character stops the generator where it stands: the
    members before it were yielded, the ones after it are never looked
    at. *)
Example nul_name_stops_the_generator :
  let bad := regular ("a" +:+ String pystr.nul "b") in
  let w := MkWorld (empty_disk "/out") [] in
  _get_safe_members [regular "ok.txt"; bad; regular "../b.txt"] w
  = Raises ValueError /\
  _get_safe_members [regular "ok.txt"] w = Returns ([regular "ok.txt"], w).
Proof. vm_compute. by split. Qed.

(** ** Running the filter again *)

(** C8: a run of the filter that returns has left the disk as it was, and
    a second run over the same members, on the state that the first one
    left, returns the same members and logs the same records again; so
    does a run from any other log.  Both runs classify each member alike,
    as the tests decide it on that disk: BlockedPath when the resolved name
    does not begin with the base, else BlockedSymlink or BlockedHardlink
    when the member is such a link and its target, resolved from the link's
    directory, does not begin with that directory, else Safe. *)
Theorem filter_twice_same_classification
    (members : list TarInfo) (w : world) (out : list TarInfo) (w1 : world)
    (Hrun : _get_safe_members members w = Returns (out, w1)) :
  let fs := disk w in
  let base := resolved fs "." in
  let new := flat_map (fun m => diagnostic m (decision fs base m)) members in
  disk w1 = fs /\
  records w1 = records w ++ new /\
  _get_safe_members members w1 = Returns (out, MkWorld fs (records w1 ++ new)) /\
  (forall recs,
      _get_safe_members members (MkWorld fs recs)
      = Returns (out, MkWorld fs (recs ++ new))) /\
  out = List.filter (fun m => is_safe (decision fs base m)) members /\
  Forall (fun m =>
            classify fs base m = Returns (decision fs base m) /\
            classify (disk w1) (resolved (disk w1) ".") m
            = Returns (decision fs base m))
    members.
Proof.
  intros fs base new.
  pose proof Hrun as Hrun'.
  apply run_returns in Hrun' as (Hb & Hall & Hout & Hw1).
  fold fs base in Hall, Hout, Hw1. fold new in Hw1.
  assert (Hagain : forall recs,
             _get_safe_members members (MkWorld fs recs)
             = Returns (out, MkWorld fs (recs ++ new))).
  { intros recs. apply run_returns. cbn [disk records]. by repeat split. }
  rewrite Hw1. cbn [disk records].
  split; [reflexivity|]. split; [reflexivity|].
  split; [apply Hagain|]. split; [exact Hagain|]. split.
  - rewrite Hout. apply filter_ext. intros m. by rewrite is_safe_decision.
  - eapply Forall_impl; [exact Hall|]. intros m Hm. by split.
Qed.

Lemma filter_twice_same_classification_witness :
  let fs := empty_disk "/out" in
  let members := [regular "a.txt"; regular "../b.txt"] in
  let record := MkLog "%s is blocked (illegal path)" ["../b.txt"] in
  _get_safe_members members (MkWorld fs [record])
  = Returns ([regular "a.txt"], MkWorld fs [record; record]).
Proof.
  intros fs members record.
  destruct (filter_twice_same_classification members (MkWorld fs [])
              [regular "a.txt"] (MkWorld fs [record]))
    as (_ & _ & Hsecond & _).
  - vm_compute. reflexivity.
  - exact Hsecond.
Defined.

(** ** Members that are not links *)

(** C10: in a run of the filter that returns, a member that is neither a
    symbolic link nor a hard link, of whatever type, is yielded exactly
    when its resolved name begins with the base, and is then classified
    Safe without a record in the log, whatever its link target holds: the
    link check is not evaluated for it.  A member whose resolved name does
    not begin with the base is BlockedPath whatever its type and link
    target are, is not yielded, and its name is logged as an illegal path;
    so the link check decides only for links that passed the path check.
    The members yielded and the records logged are those of the decision
    taken test by test, in the order of the archive. *)
Theorem nonlink_member_with_good_path_is_safe
    (members : list TarInfo) (w : world) (out : list TarInfo) (w' : world)
    (m : TarInfo)
    (Hrun : _get_safe_members members w = Returns (out, w'))
    (Hin : In m members) :
  let fs := disk w in
  let base := resolved fs "." in
  (issym m = false -> islnk m = false ->
   (In m out <-> name_accepted fs base m = true) /\
   classify fs base m
   = Returns (if name_accepted fs base m then Safe else BlockedPath) /\
   (name_accepted fs base m = true -> diagnostic m (decision fs base m) = [])) /\
  (name_accepted fs base m = false ->
   classify fs base m = Returns BlockedPath /\
   ~ In m out /\
   diagnostic m (decision fs base m)
   = [MkLog "%s is blocked (illegal path)" [name m]] /\
   In (MkLog "%s is blocked (illegal path)" [name m]) (records w')) /\
  (In m out -> issym m || islnk m = true -> link_accepted fs base m = true) /\
  out = List.filter (fun m => is_safe (decision fs base m)) members /\
  w' = MkWorld fs
         (records w ++
          flat_map (fun m => diagnostic m (decision fs base m)) members).
Proof.
  intros fs base.
  apply run_returns in Hrun as (_ & Hall & Hout & Hw').
  fold fs base in Hall, Hout, Hw'.
  rewrite List.Forall_forall in Hall. pose proof (Hall m Hin) as Hm.
  assert (Hyield : In m out <-> accepted fs base m = true)
    by (rewrite Hout, filter_In; tauto).
  split; [|split; [|split; [|split]]].
  - intros Hs Hl.
    assert (Hacc : accepted fs base m = name_accepted fs base m)
      by (unfold accepted; rewrite Hs, Hl; cbn; by rewrite andb_true_r).
    assert (Hdec : decision fs base m
                   = if name_accepted fs base m then Safe else BlockedPath)
      by (unfold decision; rewrite Hs, Hl;
          by destruct (name_accepted fs base m)).
    split; [by rewrite Hyield, Hacc|]. split; [by rewrite Hm, Hdec|].
    intros Hn. by rewrite Hdec, Hn.
  - intros Hn.
    assert (Hdec : decision fs base m = BlockedPath)
      by (unfold decision; by rewrite Hn).
    split; [by rewrite Hm, Hdec|]. split.
    { rewrite Hyield. unfold accepted. rewrite Hn. discriminate. }
    split; [by rewrite Hdec|].
    rewrite Hw'. cbn [records]. apply in_or_app. right.
    apply in_flat_map. exists m. split; [exact Hin|].
    rewrite Hdec. by left.
  - intros Hy Hlink. apply Hyield in Hy. unfold accepted in Hy.
    rewrite Hlink in Hy. cbn [negb orb] in Hy.
    by apply andb_true_iff in Hy as [_ Hy].
  - rewrite Hout. apply filter_ext. intros x. by rewrite is_safe_decision.
  - exact Hw'.
Qed.

Lemma nonlink_member_with_good_path_is_safe_witness :
  let dev := MkTarInfo "dev/console" CHRTYPE ("x" +:+ String pystr.nul "") in
  let far := MkTarInfo "../far" SYMTYPE "." in
  let fs := empty_disk "/out" in
  _is_bad_link fs dev "/out" = Raises ValueError /\
  classify fs (resolved fs ".") dev = Returns Safe /\
  classify fs (resolved fs ".") far = Returns BlockedPath.
Proof.
  intros dev far fs.
  split; [vm_compute; reflexivity|]. split.
  - destruct (nonlink_member_with_good_path_is_safe [regular "a.txt"; dev]
                (MkWorld fs []) [regular "a.txt"; dev] (MkWorld fs []) dev)
      as (Hdev & _).
    + vm_compute. reflexivity.
    + right. by left.
    + destruct Hdev as (_ & Hc & _); [reflexivity | reflexivity|].
      exact Hc.
  - destruct (nonlink_member_with_good_path_is_safe [far]
                (MkWorld fs [])
                [] (MkWorld fs [MkLog "%s is blocked (illegal path)" ["../far"]])
                far)
      as (_ & Hfar & _).
    + vm_compute. reflexivity.
    + by left.
    + destruct Hfar as (Hc & _); [vm_compute; reflexivity|]. exact Hc.
Defined.

(** ** Paths without NUL character *)

Section nul_free.

Import pystr posixpath.

Lemma has_nul_app (a b : string) : has_nul (a +:+ b) = has_nul a || has_nul b.
Proof.
  induction a as [|c a IH]; [by rewrite append_nil_l|].
  rewrite append_cons. cbn [has_nul]. by rewrite IH, orb_assoc.
Qed.

Lemma no_nul_app (a b : string) : no_nul (a +:+ b) = no_nul a && no_nul b.
Proof. unfold no_nul. by rewrite has_nul_app, negb_orb. Qed.

Lemma no_nul_String (c : ascii) (s : string) :
  no_nul (String c s) = negb (Ascii.eqb c nul) && no_nul s.
Proof. unfold no_nul. cbn [has_nul]. by rewrite negb_orb. Qed.

Lemma no_nul_join_step (p c : string) :
  no_nul p = true -> no_nul c = true -> no_nul (join_step p c) = true.
Proof.
  intros Hp Hc. unfold join_step.
  destruct (startswith c "/"); [done|].
  destruct (negb (nonempty p) || endswith_sep p);
    rewrite !no_nul_app, Hp, Hc; reflexivity.
Qed.

Lemma has_nul_join_step (p c : string) :
  has_nul c = true -> has_nul (join_step p c) = true.
Proof.
  intros Hc. unfold join_step.
  destruct (startswith c "/"); [done|].
  destruct (negb (nonempty p) || endswith_sep p);
    rewrite !has_nul_app, Hc, ?orb_true_r; reflexivity.
Qed.

Lemma no_nul_join (p : string) (cs : list string) :
  no_nul p = true -> Forall (fun c => no_nul c = true) cs ->
  no_nul (join p cs) = true.
Proof.
  intros Hp Hcs. revert p Hp. unfold join.
  induction Hcs as [|c cs Hc Hcs IH]; intros p Hp; [done|].
  cbn [fold_left]. apply IH. by apply no_nul_join_step.
Qed.

Lemma no_nul_rcut (s : string) :
  no_nul s = true ->
  no_nul (fst (rcut s)) = true /\ no_nul (snd (rcut s)) = true.
Proof.
  induction s as [|c s IH]; [done|].
  rewrite no_nul_String. intros [Hc Hs]%andb_true_iff.
  cbn [rcut]. destruct (rcut s) as [h t]. cbn [fst snd] in IH.
  destruct (IH Hs) as [Hh Ht].
  destruct h as [|a h]; [destruct (is_sep c)|]; cbn [fst snd];
    rewrite ?no_nul_String, ?Hc, ?Ht; try done.
  rewrite no_nul_String in Hh. by rewrite Hh.
Qed.

Lemma no_nul_rstrip_sep (s : string) :
  no_nul s = true -> no_nul (rstrip_sep s) = true.
Proof.
  induction s as [|c s IH]; [done|].
  rewrite no_nul_String. intros [Hc Hs]%andb_true_iff.
  cbn [rstrip_sep]. specialize (IH Hs).
  destruct (rstrip_sep s) as [|a r]; [destruct (is_sep c)|];
    rewrite ?no_nul_String, ?Hc; try done.
  rewrite no_nul_String in IH. by rewrite IH.
Qed.

Lemma no_nul_split (p : string) :
  no_nul p = true ->
  no_nul (fst (split p)) = true /\ no_nul (snd (split p)) = true.
Proof.
  intros Hp. unfold split. destruct (no_nul_rcut p Hp) as [Hh Ht].
  destruct (rcut p) as [h t]. cbn [fst snd] in *.
  destruct (nonempty h && negb (all_sep h)); cbn [fst snd];
    auto using no_nul_rstrip_sep.
Qed.

Lemma no_nul_dirname (p : string) :
  no_nul p = true -> no_nul (dirname p) = true.
Proof.
  intros Hp. unfold dirname. destruct (no_nul_rcut p Hp) as [Hh _].
  destruct (rcut p) as [h t]. cbn [fst] in Hh.
  destruct (nonempty h && negb (all_sep h)); auto using no_nul_rstrip_sep.
Qed.

Lemma no_nul_partitions (s : string) :
  no_nul s = true ->
  Forall (fun x => no_nul (fst x) = true /\ no_nul (snd x) = true)
    (partitions s).
Proof.
  induction s as [|c s IH]; [constructor|].
  rewrite no_nul_String. intros [Hc Hs]%andb_true_iff.
  cbn [partitions]. specialize (IH Hs).
  destruct (is_sep c); [by constructor|].
  destruct (partitions s) as [|[n r] tl].
  - constructor; [|constructor]. cbn [fst snd].
    by rewrite no_nul_String, Hc.
  - inversion IH as [|? ? [Hn Hr] Htl]; subst. cbn [fst snd] in *.
    constructor; [|exact Htl]. cbn [fst snd].
    by rewrite no_nul_String, Hc, Hn.
Qed.

Lemma no_nul_split_sep (s : string) :
  no_nul s = true -> Forall (fun c => no_nul c = true) (split_sep s).
Proof.
  induction s as [|c s IH]; [by repeat constructor|].
  rewrite no_nul_String. intros [Hc Hs]%andb_true_iff.
  cbn [split_sep]. specialize (IH Hs).
  destruct (is_sep c); [by constructor|].
  destruct (split_sep s) as [|h t].
  - constructor; [|constructor]. by rewrite no_nul_String, Hc.
  - inversion IH as [|? ? Hh Ht]; subst.
    constructor; [|exact Ht]. by rewrite no_nul_String, Hc, Hh.
Qed.

Lemma no_nul_join_sep (comps : list string) :
  Forall (fun c => no_nul c = true) comps -> no_nul (join_sep comps) = true.
Proof.
  induction 1 as [|c cs Hc Hcs IH]; [done|].
  destruct cs as [|d cs]; [exact Hc|].
  change (join_sep (c :: d :: cs))
    with (c +:+ String sep (join_sep (d :: cs))).
  by rewrite no_nul_app, no_nul_String, Hc, IH.
Qed.

Lemma no_nul_normpath_step (k : nat) (acc : list string) (c : string) :
  Forall (fun c => no_nul c = true) acc -> no_nul c = true ->
  Forall (fun c => no_nul c = true) (normpath_step k acc c).
Proof.
  intros Hacc Hc. unfold normpath_step.
  destruct (String.eqb c "" || String.eqb c "."); [exact Hacc|].
  destruct (_ || _ || _).
  - apply Forall_app. split; [exact Hacc | by constructor].
  - destruct acc; [exact Hacc | by apply Forall_removelast].
Qed.

Lemma no_nul_normpath (path : string) :
  no_nul path = true -> no_nul (normpath path) = true.
Proof.
  intros Hp. unfold normpath.
  destruct (negb (nonempty path)); [done|].
  set (k := if startswith path "/" then _ else 0).
  assert (Hj : no_nul (join_sep (fold_left (normpath_step k)
                                   (split_sep path) [])) = true).
  { apply no_nul_join_sep.
    assert (Hgen : forall comps acc,
               Forall (fun c => no_nul c = true) comps ->
               Forall (fun c => no_nul c = true) acc ->
               Forall (fun c => no_nul c = true)
                 (fold_left (normpath_step k) comps acc)).
    { induction comps as [|c cs IH]; intros acc Hcs Hacc; [exact Hacc|].
      inversion Hcs; subst. cbn [fold_left].
      apply IH; [done|]. by apply no_nul_normpath_step. }
    apply Hgen; [by apply no_nul_split_sep | constructor]. }
  cbn zeta.
  destruct k as [|[|k]];
    match goal with
    | |- no_nul (if nonempty ?p then _ else _) = true =>
        destruct (nonempty p); [|done]
    end;
    rewrite ?no_nul_app, ?Hj; done.
Qed.

Lemma no_nul_abspath (fs : filesystem) (path : string) :
  no_nul (cwd fs) = true -> no_nul path = true ->
  no_nul (abspath fs path) = true.
Proof.
  intros Hcwd Hp. unfold abspath. apply no_nul_normpath.
  destruct (isabs path); [exact Hp|].
  apply no_nul_join; [exact Hcwd | by constructor].
Qed.

End nul_free.

Lemma lstat_returns (fs : filesystem) (p : string) (n : node) :
  lstat fs p = Returns n <-> no_nul p = true /\ entries fs !! p = Some n.
Proof.
  unfold lstat, no_nul. destruct (pystr.has_nul p); cbn [negb].
  - split; [discriminate | by intros [? _]].
  - destruct (entries fs !! p) as [n'|].
    + split; [by intros [= ->] | by intros [_ [= ->]]].
    + split; [discriminate | by intros [_ ?]].
Qed.

Lemma lstat_raises (fs : filesystem) (p : string) (e : exn) :
  lstat fs p = Raises e ->
  (e = OSError /\ no_nul p = true /\ entries fs !! p = None) \/
  (e = ValueError /\ no_nul p = false).
Proof.
  unfold lstat, no_nul. destruct (pystr.has_nul p); cbn [negb].
  - intros [= <-]. by right.
  - destruct (entries fs !! p); [discriminate|]. intros [= <-]. by left.
Qed.

(** ** When the resolver returns *)

Section resolver_returns.

Import posixpath.

Variable fs : filesystem.
Hypothesis Htargets : targets_no_nul fs.

Lemma unseen_mono (seen seen' : seen_map) :
  dom seen ⊆ dom seen' -> unseen fs seen' <= unseen fs seen.
Proof.
  intros Hsub. unfold unseen. apply subseteq_size.
  intros x [Hx Hn]%elem_of_difference. apply elem_of_difference. auto.
Qed.

Lemma lstat_link (p t : string) :
  lstat fs p = Returns (Symlink t) -> links fs !! p = Some (Symlink t).
Proof.
  intros [_ Hl]%lstat_returns. unfold links.
  by apply map_lookup_filter_Some.
Qed.

Lemma unseen_insert (seen : seen_map) (p t : string) :
  lstat fs p = Returns (Symlink t) -> seen !! p = None ->
  unseen fs (<[p := None]> seen) < unseen fs seen.
Proof.
  intros Hl%lstat_link Hs. unfold unseen. apply subset_size.
  assert (Hin : p ∈ dom (links fs)) by (apply elem_of_dom; eauto).
  assert (Hout : p ∉ dom seen) by (by apply not_elem_of_dom).
  rewrite dom_insert_L. split.
  - intros x [Hx Hn]%elem_of_difference. apply elem_of_difference.
    split; [done|]. intros Hd. apply Hn, elem_of_union. auto.
  - intros Hsub. specialize (Hsub p). rewrite !elem_of_difference in Hsub.
    destruct Hsub as [_ Hn]; [done|]. apply Hn, elem_of_union_l.
    by apply elem_of_singleton.
Qed.

Lemma seen_no_nul_insert (seen : seen_map) (k : string) (v : option string) :
  seen_no_nul seen ->
  (forall p, v = Some p -> no_nul p = true) ->
  seen_no_nul (<[k := v]> seen).
Proof.
  intros Hseen Hv k' p. destruct (decide (k = k')) as [<-|Hne].
  - rewrite lookup_insert_eq. intros [= ->]. by apply Hv.
  - rewrite lookup_insert_ne by done. apply Hseen.
Qed.

Lemma joinrealpath_loop_returns
    (resolve_link : string -> string -> seen_map ->
                    outcome (string * bool * seen_map)) (n : nat) :
  (forall path target seen,
      unseen fs seen < n ->
      no_nul path = true -> no_nul target = true -> seen_no_nul seen ->
      returns_extending seen (resolve_link path target seen)) ->
  forall iters path seen,
    unseen fs seen < S n ->
    Forall (fun x => no_nul (fst x) = true /\ no_nul (snd x) = true) iters ->
    no_nul path = true -> seen_no_nul seen ->
    returns_extending seen
      (joinrealpath_loop resolve_link fs false iters path seen).
Proof.
  intros Hrec iters.
  induction iters as [|[nm rest] iters IH]; intros path seen Hlt Hit Hp Hseen;
    cbn [joinrealpath_loop].
  - exists path, true, seen. by repeat split.
  - inversion Hit as [|? ? [Hnm Hrest] Hit']; subst. cbn [fst snd] in *.
    destruct (negb (pystr.nonempty nm) || String.eqb nm curdir);
      [by apply IH|].
    destruct (String.eqb nm pardir).
    { apply IH; try done.
      destruct (pystr.nonempty path); [|reflexivity].
      destruct (no_nul_split path Hp) as [Hh Ht].
      destruct (split path) as [h t]. cbn [fst snd] in *.
      destruct (String.eqb t pardir); [|exact Hh].
      apply no_nul_join; [exact Hh | by repeat constructor]. }
    assert (Hnew : no_nul (join path [nm]) = true)
      by (apply no_nul_join; [exact Hp | by constructor]).
    destruct (lstat fs (join path [nm])) as [[| |target]|e] eqn:Hl;
      try (by apply IH).
    + destruct (seen !! join path [nm]) as [[cached|]|] eqn:Hs.
      * apply IH; try done. by eapply Hseen.
      * eexists _, _, seen. repeat split; try done.
        apply no_nul_join; [exact Hnew | by constructor].
      * pose proof (unseen_insert seen _ _ Hl Hs) as Hdec.
        assert (Htarget : no_nul target = true).
        { apply lstat_returns in Hl as [_ Hl]. by eapply Htargets. }
        destruct (Hrec path target (<[join path [nm] := None]> seen))
          as (p & ok & seen1 & -> & Hsub & Hpn & Hs1); try done; [lia| |].
        { apply seen_no_nul_insert; [exact Hseen | discriminate]. }
        rewrite dom_insert_L in Hsub.
        destruct ok; cbn [negb].
        -- destruct (IH p (<[join path [nm] := Some p]> seen1))
             as (p' & ok' & seen2 & -> & Hsub2 & Hpn2 & Hs2); try done.
           { eapply Nat.le_lt_trans; [apply unseen_mono|exact Hlt].
             rewrite dom_insert_L. set_solver. }
           { apply seen_no_nul_insert; [exact Hs1|]. by intros ? [= <-]. }
           rewrite dom_insert_L in Hsub2.
           eexists _, _, seen2. repeat split; try done. set_solver.
        -- eexists _, _, seen1. repeat split; try done; [set_solver|].
           apply no_nul_join; [exact Hpn | by constructor].
    + apply lstat_raises in Hl as [(-> & _)|(-> & Hnul)].
      * by apply IH.
      * rewrite Hnew in Hnul. discriminate Hnul.
Qed.

Lemma _joinrealpath_returns (fuel : nat) :
  forall path rest seen,
    unseen fs seen < fuel ->
    no_nul path = true -> no_nul rest = true -> seen_no_nul seen ->
    returns_extending seen (_joinrealpath fuel fs false path rest seen).
Proof.
  induction fuel as [|fuel IH]; intros path rest seen Hlt Hp Hr Hseen; [lia|].
  cbn [_joinrealpath].
  destruct (isabs rest);
    apply (joinrealpath_loop_returns _ fuel); auto using no_nul_partitions.
  apply no_nul_partitions. by destruct rest as [|c rest];
    [|rewrite no_nul_String in Hr; apply andb_true_iff in Hr as [_ ?]].
Qed.

Lemma realpath_returns (filename : string) :
  size (links fs) <= frames fs ->
  no_nul (cwd fs) = true -> no_nul filename = true ->
  exists p, realpath fs false filename = Returns p /\ no_nul p = true.
Proof.
  intros Hdepth Hcwd Hf. unfold realpath.
  destruct (_joinrealpath_returns (realpath_fuel fs) "" filename ∅)
    as (p & ok & seen' & -> & _ & Hp & _); try done.
  - unfold unseen, realpath_fuel. rewrite dom_empty_L.
    rewrite difference_empty_L, size_dom. lia.
  - eexists. split; [reflexivity|]. by apply no_nul_abspath.
Qed.

Lemma _get_resolved_path_returns (path : string) :
  size (links fs) <= frames fs ->
  no_nul (cwd fs) = true -> no_nul path = true ->
  exists p, _get_resolved_path fs path = Returns p /\ no_nul p = true.
Proof.
  intros Hdepth Hcwd Hp. unfold _get_resolved_path.
  destruct (realpath_returns (abspath fs path)) as (p & -> & Hpn);
    auto using no_nul_abspath.
  cbn [bind]. eexists. split; [reflexivity|]. by apply no_nul_normpath.
Qed.

End resolver_returns.

(** * Further properties *)

(** ** What [startswith] accepts *)

Lemma startswith_iff_append (p a : string) :
  pystr.startswith p a = true <-> exists s, p = a +:+ s.
Proof.
  revert p. induction a as [|b a IH]; intros p.
  - split; [intros _; by exists p | reflexivity].
  - destruct p as [|c p]; cbn.
    + split; [discriminate | intros [s Hs]; discriminate Hs].
    + rewrite andb_true_iff, Ascii.eqb_eq, IH. split.
      * intros [-> [s ->]]. by exists s.
      * intros [s Hs]. rewrite append_cons in Hs.
        injection Hs as -> ->. eauto.
Qed.

Lemma startswith_within_or_extends (base p : string) :
  pystr.startswith p base = true <->
  is_within base p = true \/ extends_name base p.
Proof.
  unfold is_within, extends_name. split.
  - intros [s ->]%startswith_iff_append.
    destruct (pystr.endswith_sep base) eqn:He.
    + left. apply orb_true_iff. right.
      apply startswith_iff_append. by exists s.
    + destruct s as [|c s].
      * left. rewrite append_nil_r, String.eqb_refl. reflexivity.
      * destruct (pystr.is_sep c) eqn:Hc.
        -- left. apply orb_true_iff. right.
           apply startswith_iff_append. exists s.
           apply Ascii.eqb_eq in Hc. subst c.
           by rewrite append_assoc.
        -- right. split; [reflexivity|].
           exists (String c s). repeat split.
           cbn. unfold pystr.is_sep, pystr.sep in Hc. by rewrite Hc.
  - intros [Hin | [_ (s & -> & _)]].
    + apply orb_true_iff in Hin as [->%String.eqb_eq | Hpre].
      * apply startswith_iff_append. exists "". by rewrite append_nil_r.
      * apply startswith_iff_append in Hpre as [s ->].
        apply startswith_iff_append.
        destruct (pystr.endswith_sep base); [by exists s|].
        exists ("/" +:+ s). by rewrite append_assoc.
    + apply startswith_iff_append. by exists s.
Qed.

Lemma path_check_ok (fs : filesystem) (path base p : string) :
  _get_resolved_path fs (posixpath.join base [path]) = Returns p ->
  is_within base p = true ->
  _is_bad_path fs path base = Returns false.
Proof.
  intros Hp Hin. apply _is_bad_path_returns. exists p. split; [exact Hp|].
  assert (pystr.startswith p base = true) as ->
    by (apply startswith_within_or_extends; by left).
  reflexivity.
Qed.

(** X3: the path check lets a name through exactly when the name joined to
    the base resolves, and the path it resolves to lies in the subtree of
    the base or is a sibling whose text extends the text of the base.  Of a
    name that resolves, this is the test of the resolved path alone. *)
Theorem path_check_accepts_iff (fs : filesystem) (path base : string) :
  (_is_bad_path fs path base = Returns false <->
   exists p,
     _get_resolved_path fs (posixpath.join base [path]) = Returns p /\
     (is_within base p = true \/ extends_name base p)) /\
  (forall p,
      _get_resolved_path fs (posixpath.join base [path]) = Returns p ->
      (_is_bad_path fs path base = Returns false <->
       is_within base (resolved fs (posixpath.join base [path])) = true \/
       extends_name base (resolved fs (posixpath.join base [path])))).
Proof.
  assert (Hiff : _is_bad_path fs path base = Returns false <->
                 exists p,
                   _get_resolved_path fs (posixpath.join base [path])
                   = Returns p /\
                   (is_within base p = true \/ extends_name base p)).
  { rewrite _is_bad_path_returns. split.
    - intros (p & Hp & Hb). exists p. split; [exact Hp|].
      apply startswith_within_or_extends.
      by destruct (pystr.startswith p base).
    - intros (p & Hp & Hin). exists p. split; [exact Hp|].
      apply startswith_within_or_extends in Hin. by rewrite Hin. }
  split; [exact Hiff|].
  intros p Hp. rewrite (resolved_of _ _ _ Hp), Hiff. split.
  - intros (q & Hq & Hin). rewrite Hp in Hq. by injection Hq as <-.
  - intros Hin. eauto.
Qed.

(** X4: in a run of the filter that returns, every member yielded
    resolves, from the base, into the subtree of the base or to a sibling
    whose text extends the text of the base; nothing else gets through. *)
Theorem yielded_within_or_extends
    (members : list TarInfo) (w : world) (out : list TarInfo) (w' : world)
    (m : TarInfo)
    (Hrun : _get_safe_members members w = Returns (out, w'))
    (Hin : In m out) :
  let base := resolved (disk w) "." in
  exists p,
    _get_resolved_path (disk w) (posixpath.join base [name m]) = Returns p /\
    (is_within base p = true \/ extends_name base p).
Proof.
  intros base.
  apply run_returns in Hrun as (_ & Hall & Hout & _). fold base in Hall, Hout.
  rewrite Hout in Hin. apply filter_In in Hin as [Hin Hacc].
  rewrite List.Forall_forall in Hall. pose proof (Hall m Hin) as Hm.
  unfold classify in Hm.
  destruct (_is_bad_path (disk w) (name m) base) as [bp|e] eqn:Hbp;
    cbn [bind] in Hm; [|discriminate].
  apply _is_bad_path_returns in Hbp as (p & Hp & _).
  exists p. split; [exact Hp|]. apply startswith_within_or_extends.
  unfold accepted, name_accepted in Hacc.
  rewrite (resolved_of _ _ _ Hp) in Hacc.
  by apply andb_true_iff in Hacc as [Hacc _].
Qed.

Lemma yielded_within_or_extends_witness :
  exists p,
    _get_resolved_path (empty_disk "/out")
      (posixpath.join (resolved (empty_disk "/out") ".") ["../outside/x"])
    = Returns p /\
    (is_within (resolved (empty_disk "/out") ".") p = true \/
     extends_name (resolved (empty_disk "/out") ".") p).
Proof.
  apply (yielded_within_or_extends
           [regular "../b.txt"; regular "../outside/x"]
           (MkWorld (empty_disk "/out") [])
           [regular "../outside/x"]
           (MkWorld (empty_disk "/out")
              [MkLog "%s is blocked (illegal path)" ["../b.txt"]])
           (regular "../outside/x")).
  - vm_compute. reflexivity.
  - by left.
Defined.

(** X9: a link member, symbolic or hard alike, whose name passes the path
    check is classified Safe exactly when the directory that holds the
    link resolves to some [tip], the target joined to [tip] resolves, and
    the path it resolves to lies in the subtree of [tip] or is a sibling of
    [tip] whose text extends it; the base plays no part in this test.  Of a
    link whose directory and target resolve, this is the test of the two
    resolved paths alone. *)
Theorem link_check_accepts_iff (fs : filesystem) (base : string) (m : TarInfo)
    (Hlink : issym m || islnk m = true)
    (Hpath : _is_bad_path fs (name m) base = Returns false) :
  (classify fs base m = Returns Safe <->
   exists tip target,
     _get_resolved_path fs (posixpath.join base [posixpath.dirname (name m)])
     = Returns tip /\
     _get_resolved_path fs (posixpath.join tip [linkname m]) = Returns target /\
     (is_within tip target = true \/ extends_name tip target)) /\
  (let tip :=
     resolved fs (posixpath.join base [posixpath.dirname (name m)]) in
   let target := resolved fs (posixpath.join tip [linkname m]) in
   forall p q,
     _get_resolved_path fs (posixpath.join base [posixpath.dirname (name m)])
     = Returns p ->
     _get_resolved_path fs (posixpath.join p [linkname m]) = Returns q ->
     (classify fs base m = Returns Safe <->
      is_within tip target = true \/ extends_name tip target)).
Proof.
  assert (Hiff : classify fs base m = Returns Safe <->
                 exists tip target,
                   _get_resolved_path fs
                     (posixpath.join base [posixpath.dirname (name m)])
                   = Returns tip /\
                   _get_resolved_path fs (posixpath.join tip [linkname m])
                   = Returns target /\
                   (is_within tip target = true \/ extends_name tip target)).
  { split.
    - intros Hc. unfold classify, and_then in Hc. rewrite Hpath in Hc.
      cbn [bind] in Hc.
      assert (Hbl : _is_bad_link fs m base = Returns false).
      { destruct (_is_bad_link fs m base) as [[|]|e];
          destruct (issym m), (islnk m); cbn [bind] in Hc;
          try discriminate Hlink; try discriminate Hc; reflexivity. }
      apply _is_bad_link_returns in Hbl as (tip & Htip & Hbp).
      apply _is_bad_path_returns in Hbp as (target & Ht & Hb).
      exists tip, target. repeat split; try done.
      apply startswith_within_or_extends.
      by destruct (pystr.startswith target tip).
    - intros (tip & target & Htip & Ht & Hin).
      apply startswith_within_or_extends in Hin.
      assert (Hbl : _is_bad_link fs m base = Returns false).
      { apply _is_bad_link_returns. exists tip. split; [exact Htip|].
        apply _is_bad_path_returns. exists target. by rewrite Hin. }
      by rewrite (classify_link _ _ _ false Hpath Hlink Hbl). }
  split; [exact Hiff|].
  intros tip target p q Hp Hq. subst tip target.
  rewrite (resolved_of _ _ _ Hp), (resolved_of _ _ _ Hq), Hiff. split.
  - intros (p' & q' & Hp' & Hq' & Hin).
    rewrite Hp in Hp'. injection Hp' as <-.
    rewrite Hq in Hq'. by injection Hq' as <-.
  - intros Hin. eauto.
Qed.

Lemma link_check_accepts_iff_witness :
  classify (empty_disk "/out") "/out"
    (MkTarInfo "sub/link" LNKTYPE "inner/a.txt") = Returns Safe.
Proof.
  destruct (link_check_accepts_iff (empty_disk "/out") "/out"
              (MkTarInfo "sub/link" LNKTYPE "inner/a.txt")) as [Hiff _].
  - reflexivity.
  - vm_compute. reflexivity.
  - apply Hiff. exists "/out/sub", "/out/sub/inner/a.txt".
    split; [by vm_compute|]. split; [by vm_compute|].
    left. vm_compute. reflexivity.
Defined.

(** ** The shape of a resolved path *)

Lemma normpath_clean_double (comps : list string) :
  Forall (fun x => clean x = true) comps ->
  posixpath.normpath ("//" +:+ pystr.join_sep comps) = "//" +:+ pystr.join_sep comps.
Proof.
  intros Hall. unfold posixpath.normpath.
  change ("//" +:+ pystr.join_sep comps)
    with (String pystr.sep (String pystr.sep (pystr.join_sep comps))).
  assert (pystr.startswith
            (String pystr.sep (String pystr.sep (pystr.join_sep comps))) "/" = true)
    as -> by reflexivity.
  assert (pystr.startswith
            (String pystr.sep (String pystr.sep (pystr.join_sep comps))) "//" = true)
    as -> by reflexivity.
  assert (pystr.startswith
            (String pystr.sep (String pystr.sep (pystr.join_sep comps))) "///"
          = false) as ->
    by (cbn -[pystr.join_sep]; fold (pystr.startswith (pystr.join_sep comps) "/");
        by apply join_sep_not_absolute).
  cbn -[pystr.join_sep]. rewrite fold_normpath_split_join by done. reflexivity.
Qed.

Lemma abspath_shape (fs : filesystem) (path : string) :
  posixpath.isabs (cwd fs) = true ->
  exists comps,
    Forall (fun x => clean x = true) comps /\
    (posixpath.abspath fs path = "/" +:+ pystr.join_sep comps \/
     posixpath.abspath fs path = "//" +:+ pystr.join_sep comps).
Proof.
  intros Hcwd. unfold posixpath.abspath. apply normpath_absolute.
  destruct (posixpath.isabs path) eqn:Hp; [exact Hp | by apply isabs_join_cwd].
Qed.

Lemma normpath_abspath (fs : filesystem) (path : string) :
  posixpath.isabs (cwd fs) = true ->
  posixpath.normpath (posixpath.abspath fs path) = posixpath.abspath fs path.
Proof.
  intros Hcwd.
  destruct (abspath_shape fs path Hcwd) as (comps & Hcl & [-> | ->]);
    [by apply normpath_clean | by apply normpath_clean_double].
Qed.

Lemma abspath_abspath (fs : filesystem) (path : string) :
  posixpath.isabs (cwd fs) = true ->
  posixpath.abspath fs (posixpath.abspath fs path) = posixpath.abspath fs path.
Proof.
  intros Hcwd. unfold posixpath.abspath at 1.
  assert (posixpath.isabs (posixpath.abspath fs path) = true) as ->
    by (destruct (abspath_shape fs path Hcwd) as (comps & _ & [-> | ->]);
        reflexivity).
  by apply normpath_abspath.
Qed.

Lemma realpath_is_abspath (fs : filesystem) (filename q : string) :
  posixpath.realpath fs false filename = Returns q ->
  exists p, q = posixpath.abspath fs p.
Proof.
  unfold posixpath.realpath.
  destruct (posixpath._joinrealpath _ fs false "" filename ∅)
    as [[[p ok] seen']|e]; [|discriminate].
  intros [= <-]. eauto.
Qed.

Lemma resolved_shape (fs : filesystem) (path p : string) :
  posixpath.isabs (cwd fs) = true ->
  _get_resolved_path fs path = Returns p ->
  posixpath.realpath fs false (posixpath.abspath fs path) = Returns p /\
  exists p0, p = posixpath.abspath fs p0.
Proof.
  intros Hcwd. unfold _get_resolved_path.
  destruct (posixpath.realpath fs false (posixpath.abspath fs path))
    as [q|e] eqn:Hr; cbn [bind]; [|discriminate].
  intros [= <-]. destruct (realpath_is_abspath _ _ _ Hr) as [p0 ->].
  rewrite normpath_abspath by done. eauto.
Qed.

Lemma resolved_starts_at_root (fs : filesystem) (path p : string) :
  posixpath.isabs (cwd fs) = true ->
  _get_resolved_path fs path = Returns p ->
  pystr.startswith p "/" = true.
Proof.
  intros Hcwd Hp.
  destruct (resolved_shape fs path p Hcwd Hp) as (_ & p0 & ->).
  by destruct (abspath_shape fs p0 Hcwd) as (comps & _ & [-> | ->]).
Qed.

(** X1: seen from an absolute working directory, a path that the resolver
    returns is a normalised absolute path: one or two leading separators
    followed by components that are not empty, hold no separator and are
    neither [.] nor [..], joined by single separators.  [normpath] leaves
    it alone, and it is already what [realpath] returned: the outer
    [normpath] of the resolver changes nothing. *)
Theorem resolved_path_is_normalised (fs : filesystem) (path p : string)
    (Hcwd : posixpath.isabs (cwd fs) = true)
    (Hret : _get_resolved_path fs path = Returns p) :
  exists comps,
    Forall (fun x => clean x = true) comps /\
    (p = "/" +:+ pystr.join_sep comps \/ p = "//" +:+ pystr.join_sep comps) /\
    posixpath.normpath p = p /\
    posixpath.realpath fs false (posixpath.abspath fs path) = Returns p.
Proof.
  destruct (resolved_shape fs path p Hcwd Hret) as (Hreal & p0 & ->).
  destruct (abspath_shape fs p0 Hcwd) as (comps & Hcl & Hshape).
  exists comps. repeat split; try done. by apply normpath_abspath.
Qed.

Lemma resolved_path_is_normalised_witness :
  exists comps,
    Forall (fun x => clean x = true) comps /\
    ("/data/x/b" = "/" +:+ pystr.join_sep comps \/
     "/data/x/b" = "//" +:+ pystr.join_sep comps) /\
    posixpath.normpath "/data/x/b" = "/data/x/b" /\
    posixpath.realpath
      (MkFs "/out" {["/out/link" := Symlink "..//data/./x/"]}) false
      (posixpath.abspath
         (MkFs "/out" {["/out/link" := Symlink "..//data/./x/"]}) "link/a/../b")
    = Returns "/data/x/b".
Proof.
  apply (resolved_path_is_normalised
           (MkFs "/out" {["/out/link" := Symlink "..//data/./x/"]})
           "link/a/../b" "/data/x/b").
  - reflexivity.
  - vm_compute. reflexivity.
Defined.

(** X12: the resolver sees a path only through its lexical normalisation:
    [.], [..] and repeated separators are folded away by [abspath] before
    any link is followed, so resolving a path and resolving its [abspath]
    give the same result. *)
Theorem resolver_normalises_before_links (fs : filesystem) (path : string)
    (Hcwd : posixpath.isabs (cwd fs) = true) :
  _get_resolved_path fs path
  = _get_resolved_path fs (posixpath.abspath fs path).
Proof.
  unfold _get_resolved_path. by rewrite abspath_abspath.
Qed.

Lemma resolver_normalises_before_links_witness :
  _get_resolved_path (MkFs "/out" {["/out/l" := Symlink "/data/deep"]}) "l/../x"
  = _get_resolved_path (MkFs "/out" {["/out/l" := Symlink "/data/deep"]})
      (posixpath.abspath (MkFs "/out" {["/out/l" := Symlink "/data/deep"]})
         "l/../x").
Proof.
  apply (resolver_normalises_before_links
           (MkFs "/out" {["/out/l" := Symlink "/data/deep"]}) "l/../x").
  reflexivity.
Defined.

(** ** The filter run from the root directory *)

(** X5: when the working directory is [/], the base of the filter is [/]
    and the path check blocks nothing: no member is BlockedPath, whatever
    its name and whatever the disk holds, and a run of the filter that
    returns has yielded every member that is not a link. *)
Theorem root_directory_blocks_no_path (members : list TarInfo) (w : world)
    (Hroot : cwd (disk w) = "/") :
  resolved (disk w) "." = "/" /\
  (forall m, classify (disk w) "/" m <> Returns BlockedPath) /\
  forall out w',
    _get_safe_members members w = Returns (out, w') ->
    forall m, In m members -> issym m = false -> islnk m = false -> In m out.
Proof.
  assert (Hbase : resolved (disk w) "." = "/").
  { destruct (disk w) as [c e n]. cbn in Hroot. subst c. reflexivity. }
  assert (Hcwd : posixpath.isabs (cwd (disk w)) = true) by (by rewrite Hroot).
  assert (Hpass : forall m c,
             classify (disk w) "/" m = Returns c ->
             name_accepted (disk w) "/" m = true).
  { intros m c Hc. unfold classify in Hc.
    destruct (_is_bad_path (disk w) (name m) "/") as [bp|e] eqn:Hbp;
      cbn [bind] in Hc; [|discriminate].
    apply _is_bad_path_returns in Hbp as (p & Hp & _).
    unfold name_accepted. rewrite (resolved_of _ _ _ Hp).
    by eapply resolved_starts_at_root. }
  split; [exact Hbase|]. split.
  - intros m Hc. pose proof (Hpass m _ Hc) as Hn.
    apply classify_returns in Hc as (_ & _ & Hiff).
    rewrite (proj1 Hiff eq_refl) in Hn. discriminate Hn.
  - intros out w' Hrun m Hin Hs Hl.
    apply run_returns in Hrun as (_ & Hall & -> & _).
    rewrite Hbase in Hall |- *. rewrite List.Forall_forall in Hall.
    apply filter_In. split; [exact Hin|].
    unfold accepted. rewrite (Hpass m _ (Hall m Hin)), Hs, Hl. reflexivity.
Qed.

Lemma root_directory_blocks_no_path_witness :
  resolved (empty_disk "/") "." = "/" /\
  classify (empty_disk "/") "/" (regular "../../etc/passwd")
  <> Returns BlockedPath.
Proof.
  destruct (root_directory_blocks_no_path
              [regular "../../etc/passwd"; regular "/root/.ssh/id"]
              (MkWorld (empty_disk "/") [])) as (Hb & Hc & _).
  - reflexivity.
  - split; [exact Hb | apply Hc].
Defined.

(** ** Bookkeeping of the filter *)

Lemma yielded_plus_logged (f : TarInfo -> classification) (l : list TarInfo) :
  length (List.filter (fun m => is_safe (f m)) l)
  + length (flat_map (fun m => diagnostic m (f m)) l)
  = length l.
Proof.
  induction l as [|m l IH]; [reflexivity|].
  cbn [List.filter flat_map]. rewrite length_app.
  destruct (f m); cbn; lia.
Qed.

Lemma logged_names (f : TarInfo -> classification) (l : list TarInfo) :
  map (fun r => hd "" (args r)) (flat_map (fun m => diagnostic m (f m)) l)
  = map name (List.filter (fun m => negb (is_safe (f m))) l).
Proof.
  induction l as [|m l IH]; [reflexivity|].
  cbn [List.filter flat_map]. rewrite map_app, IH.
  destruct (f m); reflexivity.
Qed.

(** X6: a run of the filter that returns has disposed of every member
    exactly once: it either yielded the member or sent the logger one
    record that begins with the member's name.  The members yielded and the
    records added number as many as the members given, the names logged are
    the names of the members that the tests do not accept, in archive
    order, and the disk is left as it was. *)
Theorem every_member_yielded_or_logged
    (members : list TarInfo) (w : world) (out : list TarInfo) (w' : world)
    (Hrun : _get_safe_members members w = Returns (out, w')) :
  exists new,
    disk w' = disk w /\
    records w' = records w ++ new /\
    length out + length new = length members /\
    map (fun r => hd "" (args r)) new
    = map name
        (List.filter
           (fun m => negb (accepted (disk w) (resolved (disk w) ".") m))
           members).
Proof.
  apply run_returns in Hrun as (_ & _ & -> & ->).
  eexists. cbn [disk records].
  split; [reflexivity|]. split; [reflexivity|]. split.
  - rewrite (filter_ext _
               (fun m => is_safe (decision (disk w) (resolved (disk w) ".") m)))
      by (intros m; by rewrite is_safe_decision).
    apply yielded_plus_logged.
  - rewrite logged_names. f_equal. apply filter_ext.
    intros m. by rewrite is_safe_decision.
Qed.

Lemma every_member_yielded_or_logged_witness :
  exists new,
    disk (MkWorld (empty_disk "/out")
            [MkLog "%s is blocked (illegal path)" ["../b.txt"]])
    = disk (MkWorld (empty_disk "/out") []) /\
    [MkLog "%s is blocked (illegal path)" ["../b.txt"]] = [] ++ new /\
    1 + length new = 2 /\
    map (fun r => hd "" (args r)) new
    = map name
        (List.filter
           (fun m => negb (accepted (empty_disk "/out")
                             (resolved (empty_disk "/out") ".") m))
           [regular "a.txt"; regular "../b.txt"]).
Proof.
  apply (every_member_yielded_or_logged
           [regular "a.txt"; regular "../b.txt"]
           (MkWorld (empty_disk "/out") []) [regular "a.txt"]
           (MkWorld (empty_disk "/out")
              [MkLog "%s is blocked (illegal path)" ["../b.txt"]])).
  vm_compute. reflexivity.
Defined.

(** X7: filtering two member lists one after the other, the second run
    starting in the world the first one left, yields and logs what
    filtering their concatenation does. *)
Theorem filter_of_concatenation (ms1 ms2 : list TarInfo) (w : world) :
  _get_safe_members (ms1 ++ ms2) w =
  (do (out1, w1) <- _get_safe_members ms1 w;;
   do (out2, w2) <- _get_safe_members ms2 w1;;
   Returns (out1 ++ out2, w2)).
Proof.
  unfold _get_safe_members, consume_safe_members.
  destruct (_get_resolved_path (disk w) ".") as [base|e] eqn:Hb;
    cbn [bind]; [|reflexivity].
  rewrite safe_members_loop_app.
  destruct (safe_members_loop collect base ms1 w) as [[out1 w1]|e] eqn:H1;
    cbn [bind]; [|reflexivity].
  apply collected_iff in H1 as (_ & _ & ->). cbn [disk].
  rewrite Hb. reflexivity.
Qed.

(** ** The resolver reads nothing but links *)

Lemma safe_members_loop_same_links (fs fs' : filesystem) (base : string)
    (members : list TarInfo) :
  same_links fs fs' ->
  forall recs,
    match safe_members_loop collect base members (MkWorld fs recs),
          safe_members_loop collect base members (MkWorld fs' recs) with
    | Returns (out, w1), Returns (out', w1') =>
        out = out' /\ disk w1 = fs /\ disk w1' = fs' /\
        records w1 = records w1'
    | Raises e, Raises e' => e = e'
    | _, _ => False
    end.
Proof.
  intros Hsame. induction members as [|m ms IH]; intros recs; [done|].
  rewrite !safe_members_loop_cons. cbn [disk records].
  rewrite <- (classify_same_links fs fs' Hsame).
  destruct (classify fs base m) as [c|e]; cbn [bind]; [|reflexivity].
  destruct c; try apply IH.
  change (collect m (MkWorld fs recs)) with (Returns (MkWorld fs recs)).
  change (collect m (MkWorld fs' recs)) with (Returns (MkWorld fs' recs)).
  cbn [bind]. specialize (IH recs).
  destruct (safe_members_loop collect base ms (MkWorld fs recs))
    as [[out w1]|e],
    (safe_members_loop collect base ms (MkWorld fs' recs))
    as [[out' w1']|e']; cbn [bind]; try done.
  destruct IH as (-> & ? & ? & ?). by repeat split.
Qed.

(** X2: the resolver and the filter read the disk only for its links.  On
    two disks seen from the same working directory, with the same depth of
    recursion at hand, that hold the same links, whatever regular files and
    directories exist or are missing on either, every path resolves alike
    or raises alike, and the filter yields the same members and logs the
    same records, or raises the same exception. *)
Theorem filter_reads_only_links (fs fs' : filesystem) (Hsame : same_links fs fs') :
  (forall path, _get_resolved_path fs path = _get_resolved_path fs' path) /\
  (forall base m, classify fs base m = classify fs' base m) /\
  forall members recs,
    match _get_safe_members members (MkWorld fs recs),
          _get_safe_members members (MkWorld fs' recs) with
    | Returns (out, w1), Returns (out', w1') =>
        out = out' /\ disk w1 = fs /\ disk w1' = fs' /\
        records w1 = records w1'
    | Raises e, Raises e' => e = e'
    | _, _ => False
    end.
Proof.
  split; [|split].
  - intros path. by apply _get_resolved_path_same_links.
  - intros base m. by apply classify_same_links.
  - intros members recs. unfold _get_safe_members, consume_safe_members.
    cbn [disk]. rewrite <- (_get_resolved_path_same_links fs fs' Hsame).
    destruct (_get_resolved_path fs ".") as [base|e]; cbn [bind];
      [|reflexivity].
    by apply safe_members_loop_same_links.
Qed.

(** Writing a regular file where no link is does not change the links. *)
Lemma same_links_after_file (fs : filesystem) (p : string) :
  not_link fs p ->
  same_links fs (Disk (cwd fs) (<[p := RegularFile]> (entries fs)) (frames fs)).
Proof. intros Hp. by apply same_links_insert_node. Qed.

Lemma filter_reads_only_links_witness :
  _get_resolved_path (MkFs "/out" {["/out/l" := Symlink "/data"]}) "l/a.txt"
  = _get_resolved_path
      (MkFs "/out"
         (<["/data/a.txt" := RegularFile]> {["/out/l" := Symlink "/data"]}))
      "l/a.txt".
Proof.
  assert (Hfree : not_link (MkFs "/out" {["/out/l" := Symlink "/data"]})
                    "/data/a.txt")
    by (vm_compute; exact I).
  destruct (filter_reads_only_links _ _ (same_links_after_file _ _ Hfree))
    as [Hres _].
  exact (Hres "l/a.txt").
Defined.

(** ** [repack]: the path of the model archive *)

Section model_archive.

Import pystr.

Lemma split_sep_not_nil (s : string) : split_sep s <> [].
Proof.
  destruct s as [|c s]; cbn; [done|].
  destruct (is_sep c); [done|]. by destruct (split_sep s).
Qed.

Lemma split_sep_app (p r : string) :
  split_sep (p +:+ String sep r) = split_sep p ++ split_sep r.
Proof.
  induction p as [|c p IH]; [reflexivity|].
  rewrite append_cons. cbn [split_sep]. rewrite IH.
  destruct (is_sep c); [reflexivity|].
  pose proof (split_sep_not_nil p) as Hne.
  destruct (split_sep p); [done | reflexivity].
Qed.

Lemma last_component_no_sep (a : string) : no_sep (last_component a) = true.
Proof.
  unfold last_component.
  pose proof (split_sep_no_sep a) as Hall.
  induction Hall as [|x l Hx Hl IH]; [reflexivity|].
  destruct l; [exact Hx | exact IH].
Qed.

Lemma last_component_app (prefix c : string) :
  no_sep c = true -> last_component (prefix +:+ String sep c) = c.
Proof.
  intros Hc. unfold last_component.
  rewrite split_sep_app, (split_sep_single c Hc).
  apply List.last_last.
Qed.

Lemma rcut_no_sep (c : string) : no_sep c = true -> rcut c = ("", c).
Proof.
  induction c as [|a c IH]; [reflexivity|].
  intros [Ha Hc]%andb_prop. apply negb_true_iff in Ha.
  cbn. by rewrite IH, Ha.
Qed.

Lemma rcut_app (h c : string) :
  no_sep c = true -> rcut (h +:+ String sep c) = (h +:+ "/", c).
Proof.
  intros Hc. induction h as [|a h IH].
  - rewrite !append_nil_l. cbn. by rewrite rcut_no_sep.
  - rewrite !append_cons. cbn [rcut]. rewrite IH.
    destruct h; reflexivity.
Qed.

Lemma model_path_eq (a : string) :
  model_path a = data_directory +:+ String sep (last_component a).
Proof.
  unfold model_path. cbn [posixpath.join fold_left].
  unfold posixpath.join_step.
  rewrite no_sep_startswith by apply last_component_no_sep.
  reflexivity.
Qed.

(** X10: whatever string [model_archive] is, the path that [repack] copies
    the model from is [/opt/ml/input/data/training], a separator, and the
    text of [model_archive] after its last separator, which holds no
    separator.  A name without separators is kept as it is, and of a longer
    path or URI only the last component is kept.  When that component is a
    proper name (not empty, neither [.] nor [..]) the path is normalised
    and names a direct entry of the data directory.  It is not one
    otherwise: for a [model_archive] that ends in a separator or in [/.]
    the path normalises to the data directory itself, and for one that ends
    in [/..], or is [..], to its parent [/opt/ml/input/data]. *)
Theorem model_path_in_data_directory (model_archive : string) :
  model_path model_archive
  = data_directory +:+ "/" +:+ last_component model_archive /\
  posixpath.split (model_path model_archive)
  = (data_directory, last_component model_archive) /\
  posixpath.dirname (model_path model_archive) = data_directory /\
  no_sep (last_component model_archive) = true /\
  (no_sep model_archive = true ->
   model_path model_archive = data_directory +:+ "/" +:+ model_archive) /\
  (forall prefix file,
      no_sep file = true ->
      model_path (prefix +:+ "/" +:+ file) = data_directory +:+ "/" +:+ file) /\
  (clean (last_component model_archive) = true ->
   posixpath.normpath (model_path model_archive) = model_path model_archive) /\
  (forall prefix,
      model_path (prefix +:+ "/") = data_directory +:+ "/" /\
      posixpath.normpath (model_path (prefix +:+ "/")) = data_directory /\
      posixpath.normpath (model_path (prefix +:+ "/.")) = data_directory /\
      posixpath.normpath (model_path (prefix +:+ "/..")) = "/opt/ml/input/data") /\
  posixpath.normpath (model_path "..") = "/opt/ml/input/data".
Proof.
  assert (Hcut : rcut (model_path model_archive)
                 = (data_directory +:+ "/", last_component model_archive))
    by (rewrite model_path_eq; apply rcut_app, last_component_no_sep).
  assert (Hlast : forall prefix file,
             no_sep file = true ->
             model_path (prefix +:+ "/" +:+ file)
             = data_directory +:+ "/" +:+ file).
  { intros prefix file Hf. rewrite model_path_eq.
    change (prefix +:+ "/" +:+ file) with (prefix +:+ String sep file).
    by rewrite last_component_app. }
  split; [apply model_path_eq|]. split; [|split; [|split; [|split]]].
  - unfold posixpath.split. rewrite Hcut. reflexivity.
  - unfold posixpath.dirname. rewrite Hcut. reflexivity.
  - apply last_component_no_sep.
  - intros Hn. rewrite model_path_eq. unfold last_component.
    by rewrite split_sep_single.
  - split; [exact Hlast|]. split; [|split; [|reflexivity]].
    + intros Hc. rewrite model_path_eq.
      change (data_directory +:+ String sep (last_component model_archive))
        with ("/" +:+ join_sep ["opt"; "ml"; "input"; "data"; "training";
                                 last_component model_archive]).
      apply normpath_clean. by repeat constructor.
    + intros prefix.
      rewrite (Hlast prefix "" eq_refl
               : model_path (prefix +:+ "/") = data_directory +:+ "/").
      rewrite (Hlast prefix "." eq_refl
               : model_path (prefix +:+ "/.") = data_directory +:+ "/.").
      rewrite (Hlast prefix ".." eq_refl
               : model_path (prefix +:+ "/..") = data_directory +:+ "/..").
      by repeat split.
Qed.

End model_archive.

(** ** Ordinary member names *)

Section ordinary_names.

Import pystr posixpath.

Lemma join_sep_app (a b : list string) :
  a <> [] -> b <> [] ->
  join_sep (a ++ b) = join_sep a +:+ String sep (join_sep b).
Proof.
  intros Ha Hb. induction a as [|x a IH]; [done|].
  destruct a as [|x' a].
  - destruct b as [|y b]; [done|]. reflexivity.
  - change (join_sep ((x :: x' :: a) ++ b))
      with (x +:+ String sep (join_sep ((x' :: a) ++ b))).
    rewrite IH by done.
    change (join_sep (x :: x' :: a))
      with (x +:+ String sep (join_sep (x' :: a))).
    by rewrite append_assoc.
Qed.

Lemma endswith_sep_join_sep (l : list string) :
  Forall (fun x => clean x = true) l -> l <> [] ->
  forall p, endswith_sep (p +:+ join_sep l) = false.
Proof.
  induction 1 as [|c l Hc Hl IH]; intros Hne p; [done|].
  destruct l as [|c' l].
  - apply endswith_sep_app; auto using clean_nonempty, clean_no_sep.
  - change (join_sep (c :: c' :: l))
      with (c +:+ String sep (join_sep (c' :: l))).
    replace (p +:+ c +:+ String sep (join_sep (c' :: l)))
      with ((p +:+ c +:+ "/") +:+ join_sep (c' :: l))
      by (by rewrite !append_assoc).
    by apply IH.
Qed.

Lemma join_sep_head_not_absolute (c : string) (l : list string) :
  nonempty c = true -> no_sep c = true ->
  startswith (join_sep (c :: l)) "/" = false.
Proof.
  intros Hn Hs. rewrite join_sep_cons.
  destruct c as [|a c]; [discriminate|].
  rewrite append_cons. cbn in Hs |- *.
  apply andb_prop in Hs as [Ha _]. apply negb_true_iff in Ha.
  unfold is_sep, sep in Ha. by rewrite Ha.
Qed.

(** Joining a relative path to a canonical directory. *)
Lemma join_canonical (bcomps xs : list string) :
  Forall (fun x => clean x = true) bcomps ->
  xs <> [] -> startswith (join_sep xs) "/" = false ->
  join ("/" +:+ join_sep bcomps) [join_sep xs]
  = "/" +:+ join_sep (bcomps ++ xs).
Proof.
  intros Hb Hne Hrel. cbn [join fold_left]. unfold join_step. rewrite Hrel.
  destruct bcomps as [|c cs]; [reflexivity|].
  rewrite (endswith_sep_join_sep (c :: cs) Hb) by done.
  change (nonempty ("/" +:+ join_sep (c :: cs))) with true. cbn [negb orb].
  rewrite join_sep_app by done. by rewrite !append_assoc.
Qed.

(** [normpath] of separated components, from the components. *)
Lemma normpath_of_components (c : string) (cs : list string) :
  nonempty c = true ->
  Forall (fun x => no_sep x = true) (c :: cs) ->
  normpath ("/" +:+ join_sep (c :: cs))
  = "/" +:+ join_sep (fold_left (normpath_step 1) (c :: cs) []).
Proof.
  intros Hn Hall. unfold normpath.
  change ("/" +:+ join_sep (c :: cs)) with (String sep (join_sep (c :: cs))).
  assert (startswith (String sep (join_sep (c :: cs))) "/" = true) as ->
    by reflexivity.
  assert (startswith (String sep (join_sep (c :: cs))) "//" = false) as ->.
  { cbn -[join_sep]. fold (startswith (join_sep (c :: cs)) "/").
    apply join_sep_head_not_absolute; [done | by inversion Hall]. }
  cbn -[join_sep fold_left]. rewrite split_sep_join_sep by done.
  change (fold_left (normpath_step 1) ("" :: c :: cs) [])
    with (fold_left (normpath_step 1) (c :: cs) []).
  reflexivity.
Qed.

Lemma abspath_dot (fs : filesystem) (bcomps : list string) :
  cwd fs = "/" +:+ join_sep bcomps ->
  Forall (fun x => clean x = true) bcomps ->
  abspath fs "." = cwd fs.
Proof.
  intros Hcwd Hb. unfold abspath.
  assert (isabs "." = false) as -> by reflexivity.
  rewrite Hcwd.
  pose proof (join_canonical bcomps ["."] Hb ltac:(done) eq_refl) as Hj.
  change (join_sep ["."]) with "." in Hj. rewrite Hj. clear Hj.
  destruct bcomps as [|c cs]; [reflexivity|].
  cbn [app]. rewrite normpath_of_components.
  - change (c :: cs ++ ["."]) with ((c :: cs) ++ ["."]).
    rewrite fold_left_app, (fold_normpath_step_append 1 (c :: cs) [] Hb).
    reflexivity.
  - apply clean_nonempty. by inversion Hb.
  - change (c :: cs ++ ["."]) with ((c :: cs) ++ ["."]).
    apply Forall_app. split; [|by repeat constructor].
    eapply Forall_impl; [exact Hb|]. apply clean_no_sep.
Qed.

Lemma trail_app (p : string) (a b : list string) :
  trail p (a ++ b) = trail p a ++ trail (fold_left join_step a p) b.
Proof.
  revert p. induction a as [|x a IH]; intros p; [reflexivity|].
  cbn [app trail fold_left]. by rewrite IH.
Qed.

Lemma single_root_canonical (comps : list string) :
  Forall (fun x => clean x = true) comps ->
  single_root ("/" +:+ join_sep comps) = "/" +:+ join_sep comps.
Proof.
  intros Hall. unfold single_root.
  change ("/" +:+ join_sep comps) with (String sep (join_sep comps)).
  assert (startswith (String sep (join_sep comps)) "//" = false) as ->
    by (cbn -[join_sep]; fold (startswith (join_sep comps) "/");
        by apply join_sep_not_absolute).
  reflexivity.
Qed.

Lemma resolved_dot (fs : filesystem) (bcomps : list string) :
  cwd fs = "/" +:+ join_sep bcomps ->
  Forall (fun x => clean x = true) bcomps ->
  Forall (not_link fs) (trail "/" bcomps) ->
  _get_resolved_path fs "." = Returns (cwd fs).
Proof.
  intros Hcwd Hb Hfree.
  pose proof (abspath_dot fs bcomps Hcwd Hb) as Hdot.
  rewrite resolved_without_links.
  - rewrite Hdot, Hcwd. by rewrite single_root_canonical.
  - by rewrite Hcwd.
  - rewrite Hdot, Hcwd, components_single_root by done. exact Hfree.
Qed.

Lemma resolved_ordinary (fs : filesystem) (bcomps ncomps : list string) :
  cwd fs = "/" +:+ join_sep bcomps ->
  Forall (fun x => clean x = true) bcomps ->
  Forall (fun x => clean x = true) ncomps -> ncomps <> [] ->
  Forall (not_link fs) (trail "/" (bcomps ++ ncomps)) ->
  _get_resolved_path fs (join (cwd fs) [join_sep ncomps])
  = Returns ("/" +:+ join_sep (bcomps ++ ncomps)).
Proof.
  intros Hcwd Hb Hn Hne Hfree.
  assert (Hall : Forall (fun x => clean x = true) (bcomps ++ ncomps))
    by (apply Forall_app; by split).
  assert (Habs : abspath fs (join (cwd fs) [join_sep ncomps])
                 = "/" +:+ join_sep (bcomps ++ ncomps)).
  { rewrite Hcwd, join_canonical by auto using join_sep_not_absolute.
    unfold abspath.
    assert (isabs ("/" +:+ join_sep (bcomps ++ ncomps)) = true) as ->
      by reflexivity.
    by apply normpath_clean. }
  rewrite resolved_without_links.
  - rewrite Habs. by rewrite single_root_canonical.
  - by rewrite Hcwd.
  - rewrite Habs, components_single_root by done. exact Hfree.
Qed.

End ordinary_names.

(** X11: an ordinary member name is never held back.  When the working
    directory is the canonical path [/b1/.../bk], the name is made of
    components [n1/.../nj] that are not empty and neither [.] nor [..], and
    [lstat] answers at every step of the way from the root to it, never
    with a link (so that no component holds a NUL character), the base is
    the working directory, the name resolves to [/b1/.../bk/n1/.../nj],
    inside the base, the path check lets it through, and a member of that
    name that is not a link is classified Safe. *)
Theorem ordinary_name_is_accepted
    (fs : filesystem) (bcomps ncomps : list string)
    (Hcwd : cwd fs = "/" +:+ pystr.join_sep bcomps)
    (Hb : Forall (fun x => clean x = true) bcomps)
    (Hn : Forall (fun x => clean x = true) ncomps)
    (Hne : ncomps <> [])
    (Hfree : Forall (not_link fs) (trail "/" (bcomps ++ ncomps))) :
  let base := resolved fs "." in
  let nm := pystr.join_sep ncomps in
  base = cwd fs /\
  resolved fs (posixpath.join base [nm])
  = "/" +:+ pystr.join_sep (bcomps ++ ncomps) /\
  is_within base (resolved fs (posixpath.join base [nm])) = true /\
  _is_bad_path fs nm base = Returns false /\
  forall m, name m = nm -> issym m = false -> islnk m = false ->
            classify fs base m = Returns Safe.
Proof.
  intros base nm.
  assert (Hbase : base = cwd fs).
  { apply resolved_of, (resolved_dot fs bcomps Hcwd Hb).
    rewrite trail_app in Hfree. by apply Forall_app in Hfree as [? _]. }
  assert (Hget : _get_resolved_path fs (posixpath.join base [nm])
                 = Returns ("/" +:+ pystr.join_sep (bcomps ++ ncomps)))
    by (rewrite Hbase; by apply (resolved_ordinary fs bcomps)).
  pose proof (resolved_of _ _ _ Hget) as Hres.
  assert (Hin : is_within base (resolved fs (posixpath.join base [nm])) = true).
  { rewrite Hres, Hbase, Hcwd. unfold is_within. apply orb_true_iff. right.
    destruct bcomps as [|c cs]; [reflexivity|].
    rewrite (endswith_sep_join_sep (c :: cs) Hb) by done.
    apply startswith_iff_append. exists nm. subst nm.
    destruct ncomps as [|n ns]; [done|].
    rewrite join_sep_app by done. by rewrite !append_assoc. }
  assert (Hok : _is_bad_path fs nm base = Returns false).
  { eapply path_check_ok; [exact Hget|]. by rewrite <- Hres. }
  repeat split; try done.
  intros m Hm Hs Hl. apply classify_not_link; by rewrite ?Hm.
Qed.

Lemma ordinary_name_is_accepted_witness :
  _is_bad_path (empty_disk "/opt/ml") "model/weights.bin"
    (resolved (empty_disk "/opt/ml") ".")
  = Returns false.
Proof.
  apply (ordinary_name_is_accepted (empty_disk "/opt/ml")
           ["opt"; "ml"] ["model"; "weights.bin"]).
  - reflexivity.
  - repeat constructor.
  - repeat constructor.
  - discriminate.
  - vm_compute. by repeat constructor.
Defined.

(** ** Links at the top of the archive, and names that pass through a link *)

Section through_links.

Import pystr posixpath.

Lemma dirname_no_sep (c : string) : no_sep c = true -> dirname c = "".
Proof. intros Hc. unfold dirname. by rewrite rcut_no_sep. Qed.

(** Joining the empty name to a canonical directory and normalising gives
    the directory back. *)
Lemma abspath_join_empty (fs : filesystem) (bcomps : list string) :
  Forall (fun x => clean x = true) bcomps ->
  abspath fs (join ("/" +:+ join_sep bcomps) [""]) = "/" +:+ join_sep bcomps.
Proof.
  intros Hb.
  pose proof (join_canonical bcomps [""] Hb ltac:(done) eq_refl) as Hj.
  change (join_sep [""]) with "" in Hj. rewrite Hj. clear Hj.
  destruct bcomps as [|c cs]; [reflexivity|].
  unfold abspath.
  assert (isabs ("/" +:+ join_sep ((c :: cs) ++ [""])) = true) as ->
    by reflexivity.
  cbn [app]. rewrite normpath_of_components.
  - change (c :: cs ++ [""]) with ((c :: cs) ++ [""]).
    rewrite fold_left_app, (fold_normpath_step_append 1 (c :: cs) [] Hb).
    reflexivity.
  - apply clean_nonempty. by inversion Hb.
  - change (c :: cs ++ [""]) with ((c :: cs) ++ [""]).
    apply Forall_app. split; [|by repeat constructor].
    eapply Forall_impl; [exact Hb|]. apply clean_no_sep.
Qed.

End through_links.

(** X13: a link at the top of the archive is checked against the base
    itself.  When the base is a canonical path with no link on the way to
    it and the link's name has no directory part, the directory that will
    hold the link is the base, and the link check is the path check applied
    to the link's target. *)
Theorem top_level_link_checked_against_base
    (fs : filesystem) (bcomps : list string) (m : TarInfo)
    (Hcwd : posixpath.isabs (cwd fs) = true)
    (Hb : Forall (fun x => clean x = true) bcomps)
    (Hfree : Forall (not_link fs) (trail "/" bcomps))
    (Hname : no_sep (name m) = true) :
  let base := "/" +:+ pystr.join_sep bcomps in
  _get_resolved_path fs (posixpath.join base [posixpath.dirname (name m)])
  = Returns base /\
  _is_bad_link fs m base = _is_bad_path fs (linkname m) base.
Proof.
  intros base.
  assert (Htip : _get_resolved_path fs
                   (posixpath.join base [posixpath.dirname (name m)])
                 = Returns base).
  { rewrite dirname_no_sep by done. subst base.
    pose proof (abspath_join_empty fs bcomps Hb) as Habs.
    rewrite resolved_without_links; [|done|].
    - rewrite Habs. by rewrite single_root_canonical.
    - rewrite Habs, components_single_root by done. exact Hfree. }
  split; [exact Htip|].
  unfold _is_bad_link. rewrite Htip. reflexivity.
Qed.

Lemma top_level_link_checked_against_base_witness :
  _is_bad_link (empty_disk "/out") (MkTarInfo "latest" SYMTYPE "../outside")
    "/out"
  = _is_bad_path (empty_disk "/out") "../outside" "/out".
Proof.
  apply (top_level_link_checked_against_base (empty_disk "/out") ["out"]
           (MkTarInfo "latest" SYMTYPE "../outside")).
  - reflexivity.
  - repeat constructor.
  - vm_compute. by repeat constructor.
  - reflexivity.
Defined.

(** A walk that got through its first iterations goes on from where they
    ended. *)
Lemma joinrealpath_loop_app
    (resolve_link : string -> string -> posixpath.seen_map ->
                    outcome (string * bool * posixpath.seen_map))
    (fs : filesystem) (strict : bool) (iters1 iters2 : list (string * string)) :
  forall path seen p seen',
    posixpath.joinrealpath_loop resolve_link fs strict iters1 path seen
    = Returns (p, true, seen') ->
    posixpath.joinrealpath_loop resolve_link fs strict (iters1 ++ iters2) path seen
    = posixpath.joinrealpath_loop resolve_link fs strict iters2 p seen'.
Proof.
  induction iters1 as [|[nm rest] iters1 IH]; intros path seen p seen' Hrun.
  - cbn in Hrun. injection Hrun as -> ->. reflexivity.
  - cbn [app posixpath.joinrealpath_loop] in Hrun |- *.
    repeat match goal with
      | H : (if ?b then _ else _) = Returns _ |- _ => destruct b
      | H : match ?x with _ => _ end = Returns _ |- _ =>
          lazymatch x with
          | posixpath.split _ => fail
          | _ => destruct x
          end
      | H : Raises _ = Returns _ |- _ => discriminate H
      | H : Returns (_, false, _) = Returns (_, true, _) |- _ =>
          discriminate H
      end; try (by eapply IH).
Qed.

Section walk_through_link.

Import pystr posixpath.

Variable fs : filesystem.
Variables pcomps tcomps rcomps : list string.
Variable n : string.
Hypothesis Hp : Forall (fun x => clean x = true) pcomps.
Hypothesis Hn : clean n = true.
Hypothesis Ht : Forall (fun x => clean x = true) tcomps.
Hypothesis Hr : Forall (fun x => clean x = true) rcomps.
Hypothesis Hpfree : Forall (not_link fs) (trail "/" pcomps).
Hypothesis Hlink :
  lstat fs ("/" +:+ join_sep (pcomps ++ [n]))
  = Returns (Symlink ("/" +:+ join_sep tcomps)).
Hypothesis Htfree : Forall (not_link fs) (trail "/" (tcomps ++ rcomps)).
Hypothesis Hdepth : 0 < frames fs.

Lemma link_key :
  join (fold_left join_step pcomps "/") [n] = "/" +:+ join_sep (pcomps ++ [n]).
Proof.
  rewrite <- fold_join_step_root.
  - by rewrite fold_left_app.
  - apply Forall_app. split; [done | by repeat constructor].
Qed.

(** The walk over the target of the link, then over the rest of the name. *)
Lemma walk_target (k : nat) (start : string) (seen : seen_map)
    (iters : list (string * string)) :
  map fst iters = rcomps ->
  match _joinrealpath (S k) fs false start ("/" +:+ join_sep tcomps) seen with
  | Returns (path, ok, seen') =>
      ok = true /\
      joinrealpath_loop (_joinrealpath (S k) fs false) fs false iters path
        (<["/" +:+ join_sep (pcomps ++ [n]) := Some path]> seen')
      = Returns ("/" +:+ join_sep (tcomps ++ rcomps), true,
                 <["/" +:+ join_sep (pcomps ++ [n]) := Some path]> seen')
  | _ => False
  end.
Proof.
  intros Hiters. cbn [_joinrealpath].
  assert (isabs ("/" +:+ join_sep tcomps) = true) as -> by reflexivity.
  change (tail1 ("/" +:+ join_sep tcomps)) with (join_sep tcomps).
  rewrite trail_app in Htfree. apply Forall_app in Htfree as [Hfree1 Hfree2].
  rewrite joinrealpath_loop_no_links;
    rewrite ?partitions_join_sep by done; try done.
  split; [reflexivity|].
  rewrite joinrealpath_loop_no_links; rewrite ?Hiters; try done.
  rewrite <- fold_left_app, fold_join_step_root; [reflexivity|].
  apply Forall_app. by split.
Qed.

Lemma _joinrealpath_unfold (k : nat) (strict : bool) (path rest : string)
    (seen : seen_map) :
  _joinrealpath (S k) fs strict path rest seen =
  joinrealpath_loop (_joinrealpath k fs strict) fs strict
    (partitions (if isabs rest then tail1 rest else rest))
    (if isabs rest then "/" else path) seen.
Proof. cbn [_joinrealpath]. by destruct (isabs rest). Qed.

Lemma realpath_through_link :
  realpath fs false ("/" +:+ join_sep (pcomps ++ n :: rcomps))
  = Returns ("/" +:+ join_sep (tcomps ++ rcomps)).
Proof.
  assert (Hall : Forall (fun x => clean x = true) (pcomps ++ n :: rcomps))
    by (apply Forall_app; split; [done | by constructor]).
  assert (Hout : Forall (fun x => clean x = true) (tcomps ++ rcomps))
    by (apply Forall_app; by split).
  unfold realpath, realpath_fuel.
  destruct (frames fs) as [|k]; [lia|].
  rewrite _joinrealpath_unfold.
  assert (isabs ("/" +:+ join_sep (pcomps ++ n :: rcomps)) = true) as ->
    by reflexivity.
  change (tail1 ("/" +:+ join_sep (pcomps ++ n :: rcomps)))
    with (join_sep (pcomps ++ n :: rcomps)).
  pose proof (partitions_join_sep _ Hall) as Hparts.
  apply map_eq_app in Hparts as (i1 & i2' & -> & Hi1 & Hi2').
  apply map_eq_cons in Hi2' as ([nm rest] & i2 & -> & Hnm & Hi2).
  cbn [fst] in Hnm. subst nm.
  rewrite (joinrealpath_loop_app _ _ _ _ _ _ _
             (fold_left join_step pcomps "/") ∅).
  2:{ rewrite joinrealpath_loop_no_links; rewrite ?Hi1; done. }
  cbn [joinrealpath_loop].
  destruct (clean_not_dot n Hn) as [Hd Hdd].
  unfold curdir, pardir. rewrite Hd, Hdd, link_key, Hlink, lookup_empty.
  pose proof (walk_target k (fold_left join_step pcomps "/")
                (<["/" +:+ join_sep (pcomps ++ [n]) := None]> ∅) i2 Hi2)
    as Hwalk.
  destruct (_joinrealpath (S k) fs false (fold_left join_step pcomps "/")
              ("/" +:+ join_sep tcomps)
              (<["/" +:+ join_sep (pcomps ++ [n]) := None]> ∅))
    as [[[path ok] seen']|]; try done.
  destruct Hwalk as [-> Hwalk]. cbn [negb]. rewrite Hwalk.
  unfold abspath.
  assert (isabs ("/" +:+ join_sep (tcomps ++ rcomps)) = true) as ->
    by reflexivity.
  by rewrite normpath_clean.
Qed.

Lemma resolved_through_link :
  _get_resolved_path fs ("/" +:+ join_sep (pcomps ++ n :: rcomps))
  = Returns ("/" +:+ join_sep (tcomps ++ rcomps)).
Proof.
  assert (Hall : Forall (fun x => clean x = true) (pcomps ++ n :: rcomps))
    by (apply Forall_app; split; [done | by constructor]).
  assert (Hout : Forall (fun x => clean x = true) (tcomps ++ rcomps))
    by (apply Forall_app; by split).
  unfold _get_resolved_path, abspath.
  assert (isabs ("/" +:+ join_sep (pcomps ++ n :: rcomps)) = true) as ->
    by reflexivity.
  rewrite normpath_clean by done.
  rewrite realpath_through_link.
  cbn [bind]. by rewrite normpath_clean.
Qed.

End walk_through_link.

(** X14: a name that passes through a link is judged by where the link
    leads.  When [/p1/.../pk/n] is a link to the canonical path
    [/t1/.../tj], [lstat] answers at every other step of the way, never
    with a link (so that no component holds a NUL character), and the
    recursion limit leaves one nested call, the path
    [/p1/.../pk/n/r1/.../ri] resolves to [/t1/.../tj/r1/.../ri], and the
    path check of the name [n/r1/.../ri] against the base [/p1/.../pk]
    blocks it unless that resolved path begins with the base. *)
Theorem name_through_link_follows_target
    (fs : filesystem) (pcomps tcomps rcomps : list string) (n : string)
    (Hcwd : posixpath.isabs (cwd fs) = true)
    (Hdepth : 0 < frames fs)
    (Hp : Forall (fun x => clean x = true) pcomps)
    (Hn : clean n = true)
    (Ht : Forall (fun x => clean x = true) tcomps)
    (Hr : Forall (fun x => clean x = true) rcomps)
    (Hpfree : Forall (not_link fs) (trail "/" pcomps))
    (Hlink : lstat fs ("/" +:+ pystr.join_sep (pcomps ++ [n]))
             = Returns (Symlink ("/" +:+ pystr.join_sep tcomps)))
    (Htfree : Forall (not_link fs) (trail "/" (tcomps ++ rcomps))) :
  _get_resolved_path fs ("/" +:+ pystr.join_sep (pcomps ++ n :: rcomps))
  = Returns ("/" +:+ pystr.join_sep (tcomps ++ rcomps)) /\
  _is_bad_path fs (pystr.join_sep (n :: rcomps)) ("/" +:+ pystr.join_sep pcomps)
  = Returns
      (negb (pystr.startswith ("/" +:+ pystr.join_sep (tcomps ++ rcomps))
               ("/" +:+ pystr.join_sep pcomps))).
Proof.
  pose proof (resolved_through_link fs pcomps tcomps rcomps n
                Hp Hn Ht Hr Hpfree Hlink Htfree Hdepth) as Hres.
  split; [exact Hres|].
  unfold _is_bad_path.
  rewrite join_canonical; [|done|done|].
  - by rewrite Hres.
  - apply join_sep_not_absolute. by constructor.
Qed.

Lemma name_through_link_follows_target_witness :
  _is_bad_path (MkFs "/out" {["/out/logs" := Symlink "/var/log"]})
    "logs/app/x.log" "/out"
  = Returns true.
Proof.
  apply (name_through_link_follows_target
           (MkFs "/out" {["/out/logs" := Symlink "/var/log"]})
           ["out"] ["var"; "log"] ["app"; "x.log"] "logs").
  - reflexivity.
  - vm_compute. lia.
  - repeat constructor.
  - reflexivity.
  - repeat constructor.
  - repeat constructor.
  - vm_compute. by repeat constructor.
  - vm_compute. reflexivity.
  - vm_compute. by repeat constructor.
Defined.

(** ** The resolver on paths that do not exist yet *)




(** Links nested deeper than the recursion limit allows make the resolver
    raise as well: here one nested call is left and two are needed. *)
Example nested_links_exhaust_the_recursion :
  let links := {["/out/a" := Symlink "b"; "/out/b" := Symlink "c"]} in
  _get_resolved_path (Disk "/out" links 1) "a" = Raises RecursionError /\
  _get_resolved_path (Disk "/out" links 2) "a" = Returns "/out/c".
Proof. vm_compute. by split. Qed.



(** ** When the filter returns *)

Section filter_returns.

Variable fs : filesystem.
Hypothesis Hdepth : size (links fs) <= frames fs.
Hypothesis Hcwd : no_nul (cwd fs) = true.
Hypothesis Htargets : targets_no_nul fs.

Lemma _is_bad_path_total (path base : string) :
  no_nul path = true -> no_nul base = true ->
  exists b, _is_bad_path fs path base = Returns b.
Proof.
  intros Hp Hb. unfold _is_bad_path.
  destruct (_get_resolved_path_returns fs Htargets (posixpath.join base [path]))
    as (p & -> & _); try done.
  - apply no_nul_join; [exact Hb | by constructor].
  - cbn [bind]. eauto.
Qed.

Lemma _is_bad_link_total (m : TarInfo) (base : string) :
  no_nul (name m) = true -> no_nul (linkname m) = true ->
  no_nul base = true ->
  exists b, _is_bad_link fs m base = Returns b.
Proof.
  intros Hn Hl Hb. unfold _is_bad_link.
  destruct (_get_resolved_path_returns fs Htargets
              (posixpath.join base [posixpath.dirname (name m)]))
    as (tip & -> & Htip); try done.
  - apply no_nul_join; [exact Hb|]. constructor; [|constructor].
    by apply no_nul_dirname.
  - cbn [bind]. by apply _is_bad_path_total.
Qed.

Lemma classify_total (m : TarInfo) (base : string) :
  no_nul (name m) = true -> no_nul (linkname m) = true ->
  no_nul base = true ->
  exists c, classify fs base m = Returns c.
Proof.
  intros Hn Hl Hb. unfold classify, and_then.
  destruct (_is_bad_path_total (name m) base Hn Hb) as [bp ->].
  destruct (_is_bad_link_total m base Hn Hl Hb) as [bl ->].
  cbn [bind].
  destruct bp, (issym m), (islnk m), bl; cbn [bind]; eauto.
Qed.

End filter_returns.

(** X8: the filter returns for every archive whose member names and link
    targets hold no NUL character, on a disk whose working directory and
    link targets hold none and whose links are no more than the nested
    calls that the recursion limit leaves: the base resolves and so does
    every member. *)
Theorem filter_returns_without_nul (members : list TarInfo) (w : world)
    (Hdepth : size (links (disk w)) <= frames (disk w))
    (Hcwd : no_nul (cwd (disk w)) = true)
    (Htargets : targets_no_nul (disk w))
    (Hnames : Forall (fun m => no_nul (name m) = true /\
                               no_nul (linkname m) = true) members) :
  exists base out w',
    _get_resolved_path (disk w) "." = Returns base /\
    Forall (fun m => exists c, classify (disk w) base m = Returns c) members /\
    _get_safe_members members w = Returns (out, w').
Proof.
  destruct (_get_resolved_path_returns (disk w) Htargets ".")
    as (base & Hbase & Hb); try done.
  assert (Hall : Forall (fun m => exists c, classify (disk w) base m = Returns c)
                   members).
  { eapply Forall_impl; [exact Hnames|]. intros m [Hn Hl].
    by apply classify_total. }
  exists base. eexists _, _. split; [exact Hbase|]. split; [exact Hall|].
  apply _get_safe_members_returns. exists base.
  split; [exact Hbase|]. split; [|split; reflexivity].
  eapply Forall_impl; [exact Hall|]. intros m [c Hc]. cbn beta.
  unfold verdict. by rewrite Hc.
Qed.

Lemma filter_returns_without_nul_witness :
  exists base out w',
    _get_resolved_path (MkFs "/out" {["/out/l" := Symlink "/data"]}) "."
    = Returns base /\
    Forall (fun m => exists c,
                classify (MkFs "/out" {["/out/l" := Symlink "/data"]}) base m
                = Returns c)
      [regular "l/a.txt"; MkTarInfo "k" SYMTYPE "l/x"] /\
    _get_safe_members [regular "l/a.txt"; MkTarInfo "k" SYMTYPE "l/x"]
      (MkWorld (MkFs "/out" {["/out/l" := Symlink "/data"]}) [])
    = Returns (out, w').
Proof.
  apply (filter_returns_without_nul
           [regular "l/a.txt"; MkTarInfo "k" SYMTYPE "l/x"]
           (MkWorld (MkFs "/out" {["/out/l" := Symlink "/data"]}) [])).
  - vm_compute. lia.
  - reflexivity.
  - intros p t H.
    change (({["/out/l" := Symlink "/data"]} : gmap string node) !! p
            = Some (Symlink t)) in H.
    apply lookup_singleton_Some in H as [_ [= <-]]. reflexivity.
  - by repeat constructor.
Defined.

(** ** Where a NUL character stops the resolver *)

(** X15: a component with a NUL character that the walk of [realpath]
    reaches makes the resolver raise [ValueError].  When the candidate is
    [/p1/.../pk/c/r1/.../ri], [lstat] answers for each of [/p1], ...,
    [/p1/.../pk], never with a link, and [c] holds a NUL character, the
    call of [lstat] on [/p1/.../pk/c] raises and nothing catches it,
    whatever the disk holds and whatever follows [c]. *)
Theorem nul_component_raises
    (fs : filesystem) (pre post : list string) (c : string)
    (Hpre : Forall (fun x => clean x = true) pre)
    (Hc : clean c = true)
    (Hnul : pystr.has_nul c = true)
    (Hpost : Forall (fun x => clean x = true) post)
    (Hfree : Forall (not_link fs) (trail "/" pre)) :
  _get_resolved_path fs ("/" +:+ pystr.join_sep (pre ++ c :: post))
  = Raises ValueError /\
  forall base m,
    posixpath.join base [name m] = "/" +:+ pystr.join_sep (pre ++ c :: post) ->
    classify fs base m = Raises ValueError.
Proof.
  assert (Hall : Forall (fun x => clean x = true) (pre ++ c :: post))
    by (apply Forall_app; split; [done | by constructor]).
  assert (Hres : _get_resolved_path fs
                   ("/" +:+ pystr.join_sep (pre ++ c :: post))
                 = Raises ValueError).
  { unfold _get_resolved_path, posixpath.abspath.
    assert (posixpath.isabs ("/" +:+ pystr.join_sep (pre ++ c :: post)) = true)
      as -> by reflexivity.
    rewrite normpath_clean by done.
    unfold posixpath.realpath, posixpath.realpath_fuel.
    rewrite _joinrealpath_unfold.
    assert (posixpath.isabs ("/" +:+ pystr.join_sep (pre ++ c :: post)) = true)
      as -> by reflexivity.
    change (pystr.tail1 ("/" +:+ pystr.join_sep (pre ++ c :: post)))
      with (pystr.join_sep (pre ++ c :: post)).
    pose proof (partitions_join_sep _ Hall) as Hparts.
    apply map_eq_app in Hparts as (i1 & i2' & -> & Hi1 & Hi2').
    apply map_eq_cons in Hi2' as ([nm rest] & i2 & -> & Hnm & Hi2).
    cbn [fst] in Hnm. subst nm.
    rewrite (joinrealpath_loop_app _ _ _ _ _ _ _
               (fold_left posixpath.join_step pre "/") ∅).
    2:{ rewrite joinrealpath_loop_no_links; rewrite ?Hi1; done. }
    cbn [posixpath.joinrealpath_loop].
    destruct (clean_not_dot c Hc) as [Hd Hdd].
    unfold posixpath.curdir, posixpath.pardir. rewrite Hd, Hdd.
    cbn [negb orb]. unfold lstat.
    change (posixpath.join (fold_left posixpath.join_step pre "/") [c])
      with (posixpath.join_step (fold_left posixpath.join_step pre "/") c).
    rewrite (has_nul_join_step _ c Hnul). reflexivity. }
  split; [exact Hres|].
  intros base m Hjoin. unfold classify, _is_bad_path.
  by rewrite Hjoin, Hres.
Qed.

Lemma nul_component_raises_witness :
  _get_resolved_path (empty_disk "/out")
    ("/" +:+ pystr.join_sep ["out"; "a" +:+ String pystr.nul "b"; "x"])
  = Raises ValueError /\
  classify (empty_disk "/out") "/out"
    (regular ("a" +:+ String pystr.nul "b" +:+ "/x"))
  = Raises ValueError.
Proof.
  destruct (nul_component_raises (empty_disk "/out") ["out"] ["x"]
              ("a" +:+ String pystr.nul "b")) as [Hres Hmember].
  - by repeat constructor.
  - reflexivity.
  - reflexivity.
  - by repeat constructor.
  - vm_compute. by repeat constructor.
  - split; [exact Hres|]. apply Hmember. reflexivity.
Defined.
